(** * A shallow embedding of the compiled-script runtime (compiler/jsexecute.js)
      and of the small EventEmitter class, with the properties of their
      specification.

    Layout: the host-language substrate first (strings, numbers, values and the
    coercions JavaScript applies to them), then the runtime helpers as they are
    written in the source, then the lemmas.

    Modelling conventions.
    - A JavaScript string is a [string]: a sequence of 8-bit characters read as
      the code points U+0000..U+00FF.
    - A JavaScript number is NaN, one of the two infinities, or a finite value.
      A finite value is the exact rational it denotes and arithmetic on finite
      values is exact.  This agrees with binary64 arithmetic whenever operands
      and results are integers of magnitude at most 2^53 (and more generally
      whenever no rounding, overflow or underflow takes place); rounding and the
      sign of zero are outside the model.
    - Values handled by compiled scripts are the primitive ones: null,
      undefined, booleans, numbers and strings. *)

From Stdlib Require Import ZArith QArith Qround String Ascii DecimalString List Bool Lia Lqa.
From Stdlib Require Qcanon.
Import ListNotations.

Open Scope string_scope.
Open Scope Z_scope.

(* ===================================================================== *)
(** ** Strings *)
(* ===================================================================== *)

Module Str.

(** WhiteSpace and LineTerminator code points below U+0100: TAB, LF, VT, FF,
    CR, SP and NBSP.  [String.prototype.trim] and the numeric grammar for
    strings both strip exactly these. *)
Definition is_white (c : ascii) : bool :=
  let n := N_of_ascii c in
  ((9 <=? n) && (n <=? 13) || (n =? 32) || (n =? 160))%N.

Fixpoint trimStart (s : string) : string :=
  match s with
  | String c r => if is_white c then trimStart r else s
  | EmptyString => EmptyString
  end.

Fixpoint all_white (s : string) : bool :=
  match s with
  | String c r => is_white c && all_white r
  | EmptyString => true
  end.

Fixpoint trimEnd (s : string) : string :=
  match s with
  | String c r => if all_white s then EmptyString else String c (trimEnd r)
  | EmptyString => EmptyString
  end.

(** [s.trim()] *)
Definition trim (s : string) : string := trimEnd (trimStart s).

(** One character of [s.toLowerCase()]: A-Z, and the Latin-1 capitals
    U+00C0..U+00DE except the multiplication sign U+00D7. *)
Definition lower_char (c : ascii) : ascii :=
  let n := N_of_ascii c in
  if ((65 <=? n) && (n <=? 90) || (192 <=? n) && (n <=? 222) && negb (n =? 215))%N
  then ascii_of_N (n + 32) else c.

Fixpoint toLowerCase (s : string) : string :=
  match s with
  | String c r => String (lower_char c) (toLowerCase r)
  | EmptyString => EmptyString
  end.

(** [s.includes(t)]: [t] occurs in [s] as a contiguous substring. *)
Fixpoint includes (s t : string) : bool :=
  prefix t s ||
  match s with
  | String _ r => includes r t
  | EmptyString => false
  end.

(** [a.join(sep)] on already stringified elements. *)
Fixpoint join (sep : string) (l : list string) : string :=
  match l with
  | [] => ""
  | [x] => x
  | x :: r => x ++ sep ++ join sep r
  end.

End Str.

(* ===================================================================== *)
(** ** Numbers *)
(* ===================================================================== *)

Module Num.

Inductive number : Type :=
| NaN
| PInf
| NInf
| Fin (q : Q).

(** Finite results are kept in lowest terms. *)
Definition fin (q : Q) : number := Fin (Qred q).

Definition ofZ (z : Z) : number := Fin (inject_Z z).

Definition Qltb (p q : Q) : bool := negb (Qle_bool q p).

(** Integer part, rounding toward zero. *)
Definition Qtrunc (q : Q) : Z := Z.quot (Qnum q) (Zpos (Qden q)).

(** [isNaN(x)] *)
Definition isNaN (x : number) : bool :=
  match x with NaN => true | _ => false end.

(** [x === y] on numbers: NaN is different from everything. *)
Definition eqb (x y : number) : bool :=
  match x, y with
  | Fin p, Fin q => Qeq_bool p q
  | PInf, PInf => true
  | NInf, NInf => true
  | _, _ => false
  end.

(** [x < y]: false as soon as one side is NaN. *)
Definition ltb (x y : number) : bool :=
  match x, y with
  | NaN, _ | _, NaN => false
  | _, NInf => false
  | NInf, _ => true
  | PInf, _ => false
  | Fin _, PInf => true
  | Fin p, Fin q => Qltb p q
  end.

(** [x > y] *)
Definition gtb (x y : number) : bool := ltb y x.

(** Truthiness of a number, as [||] and [if] see it: 0 and NaN are falsy. *)
Definition truthy (x : number) : bool :=
  match x with
  | NaN => false
  | Fin q => negb (Qeq_bool q 0)
  | _ => true
  end.

(** [x + y] *)
Definition add (x y : number) : number :=
  match x, y with
  | NaN, _ | _, NaN => NaN
  | PInf, NInf | NInf, PInf => NaN
  | PInf, _ | _, PInf => PInf
  | NInf, _ | _, NInf => NInf
  | Fin p, Fin q => fin (p + q)
  end.

(** [x * y] *)
Definition mul (x y : number) : number :=
  match x, y with
  | NaN, _ | _, NaN => NaN
  | Fin p, Fin q => fin (p * q)
  | Fin p, PInf | PInf, Fin p =>
      if Qeq_bool p 0 then NaN else if Qltb p 0 then NInf else PInf
  | Fin p, NInf | NInf, Fin p =>
      if Qeq_bool p 0 then NaN else if Qltb p 0 then PInf else NInf
  | PInf, PInf | NInf, NInf => PInf
  | PInf, NInf | NInf, PInf => NInf
  end.

(** [x / y].  A zero divisor counts as +0. *)
Definition div (x y : number) : number :=
  match x, y with
  | NaN, _ | _, NaN => NaN
  | Fin p, Fin q =>
      if Qeq_bool q 0
      then if Qeq_bool p 0 then NaN else if Qltb p 0 then NInf else PInf
      else fin (p / q)
  | Fin _, _ => Fin 0
  | PInf, Fin q => if Qltb q 0 then NInf else PInf
  | NInf, Fin q => if Qltb q 0 then PInf else NInf
  | _, _ => NaN
  end.

(** [x % y]: the remainder of the truncating division; it has the sign of the
    dividend.  NaN for an infinite dividend or a zero divisor, the dividend
    itself for an infinite divisor. *)
Definition rem (x y : number) : number :=
  match x, y with
  | NaN, _ | _, NaN => NaN
  | PInf, _ | NInf, _ => NaN
  | Fin p, Fin q =>
      if Qeq_bool q 0 then NaN
      else fin (p - q * inject_Z (Qtrunc (p / q)))
  | Fin p, _ => Fin p
  end.

(** ToInt32, the conversion behind [x | 0]: NaN and the infinities give 0, a
    finite value is truncated toward zero and wrapped into [-2^31, 2^31). *)
Definition wrap32 (z : Z) : Z :=
  let m := z mod 4294967296 in
  if 2147483648 <=? m then m - 4294967296 else m.

Definition toInt32 (x : number) : Z :=
  match x with
  | Fin q => wrap32 (Qtrunc q)
  | _ => 0
  end.

(** *** Number to string (Number::toString, radix 10) *)

(** Decimal digits of a non-negative integer. *)
Definition dec (z : Z) : string := NilZero.string_of_uint (N.to_uint (Z.to_N z)).

Fixpoint zeros (n : nat) : string :=
  match n with
  | O => ""
  | S k => String "0" (zeros k)
  end.

Fixpoint all_zero (s : string) : bool :=
  match s with
  | String c r => Ascii.eqb c "0" && all_zero r
  | EmptyString => true
  end.

Fixpoint strip_zeros (s : string) : string :=
  match s with
  | String c r => if all_zero s then "" else String c (strip_zeros r)
  | EmptyString => ""
  end.

(** The least [j >= 1] with [q * 10^j >= 1], for [0 < q < 1]. *)
Fixpoint lead (fuel : nat) (q : Q) (j : Z) : Z :=
  match fuel with
  | O => j
  | S f => if Qle_bool 1 (q * Qpower 10 j) then j else lead f q (j + 1)
  end.

(** The [n] of the standard: [10^(n-1) <= q < 10^n], for [0 < q]. *)
Definition point (q : Q) : Z :=
  if Qle_bool 1 q then Z.of_nat (String.length (dec (Qfloor q)))
  else 1 - lead (Pos.to_nat (Pos.size (Qden q))) q 1.

(** A positive finite value: its significant digits (at most 17 of them, the
    most a binary64 number prints, without trailing zeros) laid out around the
    decimal point as the standard prescribes. *)
Definition toString_pos (q : Q) : string :=
  let n0 := point q in
  let s0 := Qfloor (q * Qpower 10 (17 - n0) + (1 # 2)) in
  let '(s, n) := if 10 ^ 17 <=? s0 then (s0 / 10, n0 + 1) else (s0, n0) in
  let ds := strip_zeros (dec s) in
  let k := Z.of_nat (String.length ds) in
  if (k <=? n) && (n <=? 21) then ds ++ zeros (Z.to_nat (n - k))
  else if (0 <? n) && (n <=? 21)
  then substring 0 (Z.to_nat n) ds ++ "." ++ substring (Z.to_nat n) (Z.to_nat (k - n)) ds
  else if (-6 <? n) && (n <=? 0) then "0." ++ zeros (Z.to_nat (- n)) ++ ds
  else
    let e := n - 1 in
    let es := (if e <? 0 then "-" else "+") ++ dec (Z.abs e) in
    match ds with
    | String d EmptyString => String d "e" ++ es
    | String d r => String d "." ++ r ++ "e" ++ es
    | EmptyString => ""
    end.

Definition toString (x : number) : string :=
  match x with
  | NaN => "NaN"
  | PInf => "Infinity"
  | NInf => "-Infinity"
  | Fin q =>
      if Qeq_bool q 0 then "0"
      else if Qltb q 0 then "-" ++ toString_pos (- q)
      else toString_pos q
  end.

(** *** String to number (StringToNumber) *)

Definition digit (base : Z) (c : ascii) : option Z :=
  let n := Z.of_N (N_of_ascii c) in
  let v := if (48 <=? n) && (n <=? 57) then n - 48
           else if (97 <=? n) && (n <=? 122) then n - 87
           else if (65 <=? n) && (n <=? 90) then n - 55
           else 36 in
  if v <? base then Some v else None.

(** Reads the longest run of digits: the accumulated value, how many digits
    were read, and what is left. *)
Fixpoint digits (base : Z) (s : string) (acc cnt : Z) : Z * Z * string :=
  match s with
  | String c r =>
      match digit base c with
      | Some d => digits base r (acc * base + d) (cnt + 1)
      | None => (acc, cnt, s)
      end
  | EmptyString => (acc, cnt, s)
  end.

(** ExponentPart, or nothing; anything else is an error. *)
Definition exponent (s : string) : option Z :=
  match s with
  | EmptyString => Some 0
  | String c r =>
      if Ascii.eqb c "e" || Ascii.eqb c "E" then
        let '(sg, r') :=
          match r with
          | String "+" r' => (1, r')
          | String "-" r' => (-1, r')
          | _ => (1, r)
          end in
        let '(e, ne, rest) := digits 10 r' 0 0 in
        if (0 <? ne) && String.eqb rest "" then Some (sg * e) else None
      else None
  end.

(** StrUnsignedDecimalLiteral without the Infinity case: digits, an optional
    fraction, an optional exponent; at least one digit before the exponent. *)
Definition unsignedDecimal (s : string) : option Q :=
  let '(i, ni, r1) := digits 10 s 0 0 in
  let '(m, nf, r2) :=
    match r1 with
    | String "." r => digits 10 r i 0
    | _ => (i, 0, r1)
    end in
  if 0 <? ni + nf then
    match exponent r2 with
    | Some e => Some (inject_Z m * Qpower 10 (e - nf))%Q
    | None => None
    end
  else None.

(** 0x.., 0o.. and 0b.. literals: no sign, at least one digit. *)
Definition nonDecimal (base : Z) (s : string) : number :=
  let '(v, n, rest) := digits base s 0 0 in
  if (0 <? n) && String.eqb rest "" then ofZ v else NaN.

Definition signedDecimal (s : string) : number :=
  let '(neg, r) :=
    match s with
    | String "+" r => (false, r)
    | String "-" r => (true, r)
    | _ => (false, s)
    end in
  if String.eqb r "Infinity" then (if neg then NInf else PInf)
  else
    match unsignedDecimal r with
    | Some q => fin (if neg then - q else q)
    | None => NaN
    end.

(** [+s] for a string [s]: white space is trimmed, the empty string is 0, and
    what does not read as a numeric literal is NaN. *)
Definition ofString (s : string) : number :=
  match Str.trim s with
  | EmptyString => Fin 0
  | String "0" (String c r) as t =>
      if Ascii.eqb c "x" || Ascii.eqb c "X" then nonDecimal 16 r
      else if Ascii.eqb c "o" || Ascii.eqb c "O" then nonDecimal 8 r
      else if Ascii.eqb c "b" || Ascii.eqb c "B" then nonDecimal 2 r
      else signedDecimal t
  | t => signedDecimal t
  end.

(** *** Further arithmetic *)

(** [-x] *)
Definition neg (x : number) : number :=
  match x with
  | NaN => NaN
  | PInf => NInf
  | NInf => PInf
  | Fin q => fin (- q)
  end.

(** [x - y] *)
Definition sub (x y : number) : number := add x (neg y).


End Num.

(* ===================================================================== *)
(** ** Values and coercions *)
(* ===================================================================== *)

Module Val.
Import Num.

Inductive Value : Type :=
| VNull
| VUndefined
| VBool (b : bool)
| VNumber (n : number)
| VString (s : string).

(** [+v] (ToNumber) *)
Definition ToNumber (v : Value) : number :=
  match v with
  | VNull => Fin 0
  | VUndefined => NaN
  | VBool b => if b then Fin 1 else Fin 0
  | VNumber n => n
  | VString s => ofString s
  end.

(** ['' + v] (ToString) *)
Definition ToString (v : Value) : string :=
  match v with
  | VNull => "null"
  | VUndefined => "undefined"
  | VBool b => if b then "true" else "false"
  | VNumber n => toString n
  | VString s => s
  end.

(** [v === w] *)
Definition strictEq (v w : Value) : bool :=
  match v, w with
  | VNull, VNull => true
  | VUndefined, VUndefined => true
  | VBool a, VBool b => Bool.eqb a b
  | VNumber a, VNumber b => Num.eqb a b
  | VString a, VString b => String.eqb a b
  | _, _ => false
  end.

(** *** Arrays *)

(** [a[i]]: undefined outside the array. *)
Definition array_get (a : list Value) (i : Z) : Value :=
  if i <? 0 then VUndefined else nth (Z.to_nat i) a VUndefined.

(** [a[i] = v]: replaces an element, or grows the array (the skipped
    positions read as undefined) when [i] is past the end; a negative [i] names
    a property, not an element, and leaves the elements alone. *)
Definition array_set (a : list Value) (i : Z) (v : Value) : list Value :=
  if i <? 0 then a
  else if i <? Z.of_nat (length a)
  then (firstn (Z.to_nat i) a ++ v :: skipn (S (Z.to_nat i)) a)%list
  else (a ++ repeat VUndefined (Z.to_nat i - length a) ++ [v])%list.

(** The start position [splice] works from: a negative one counts from the
    end, and both ends clamp. *)
Definition splice_start (a : list Value) (start : Z) : nat :=
  let len := Z.of_nat (length a) in
  Z.to_nat (if start <? 0 then Z.max (len + start) 0 else Z.min start len).

(** [a.splice(start, 0, v)] *)
Definition splice_insert (a : list Value) (start : Z) (v : Value) : list Value :=
  let s := splice_start a start in
  (firstn s a ++ v :: skipn s a)%list.

(** [a.splice(start, 1)] *)
Definition splice_delete (a : list Value) (start : Z) : list Value :=
  let s := splice_start a start in
  (firstn s a ++ skipn (S s) a)%list.

(** [a.join(sep)]: null and undefined elements contribute the empty string. *)
Definition join_item (v : Value) : string :=
  match v with
  | VNull | VUndefined => ""
  | _ => ToString v
  end.

Definition array_join (a : list Value) (sep : string) : string :=
  Str.join sep (map join_item a).

(** [a.indexOf(v)]: the first position holding a value strictly equal to [v],
    or -1. *)
Fixpoint array_indexOf_from (a : list Value) (v : Value) (i : Z) : Z :=
  match a with
  | [] => -1
  | x :: r => if strictEq x v then i else array_indexOf_from r v (i + 1)
  end.

Definition array_indexOf (a : list Value) (v : Value) : Z := array_indexOf_from a v 0.

End Val.

(* ===================================================================== *)
(** ** The primitive library of jsexecute.js *)
(* ===================================================================== *)

Module Runtime.
Import Num Val.

(** The list variable a list primitive works on: the array and the flag that
    tells the monitor whether its copy is current. *)
Record ListVariable : Type := mkList {
  value : list Value;
  _monitorUpToDate : bool
}.

(** isWhiteSpace *)
Definition isWhiteSpace (val : Value) : bool :=
  match val with
  | VNull => true
  | VString s => (String.length (Str.trim s) =? 0)%nat
  | _ => false
  end.

(** compareEqual *)
Definition compareEqual (v1 v2 : Value) : bool :=
  let n1 := ToNumber v1 in
  let n2 := ToNumber v2 in
  let '(n1, n2) :=
    if Num.eqb n1 (Fin 0) && isWhiteSpace v1 then (NaN, n2)
    else if Num.eqb n2 (Fin 0) && isWhiteSpace v2 then (n1, NaN)
    else (n1, n2) in
  if isNaN n1 || isNaN n2 then
    let s1 := Str.toLowerCase (ToString v1) in
    let s2 := Str.toLowerCase (ToString v2) in
    String.eqb s1 s2
  else Num.eqb n1 n2.

(** The tail of listIndex, once [index] is a number: truncation to a 32-bit
    integer, then the bounds check. *)
Definition listIndex_number (index : number) (length : Z) : Z :=
  let index := toInt32 index in
  if (index <? 1) || (index >? length) then -1 else index - 1.

(** listIndex.  [random] is what [Math.random()] returns if it is called;
    [length] is an array length (or one more), an integer. *)
Definition listIndex (random : number) (index : Value) (length : Z) : Z :=
  match index with
  | VNumber n => listIndex_number n length
  | _ =>
      if strictEq index (VString "last") then
        if length >? 0 then length - 1 else -1
      else if strictEq index (VString "random") || strictEq index (VString "*") then
        if length >? 0 then toInt32 (Num.mul random (ofZ length)) else -1
      else
        let n := ToNumber index in
        listIndex_number (if truthy n then n else Fin 0) length
  end.

(** listGet *)
Definition listGet (random : number) (list : list Value) (idx : Value) : Value :=
  let index := listIndex random idx (Z.of_nat (length list)) in
  if index =? -1 then VString "" else array_get list index.

(** listReplace *)
Definition listReplace (random : number) (list : ListVariable) (idx value : Value)
  : ListVariable :=
  let index := listIndex random idx (Z.of_nat (length list.(Runtime.value))) in
  if index =? -1 then list
  else {| value := array_set list.(Runtime.value) index value;
          _monitorUpToDate := false |}.

(** listInsert *)
Definition listInsert (random : number) (list : ListVariable) (idx value : Value)
  : ListVariable :=
  let index := listIndex random idx (Z.of_nat (length list.(Runtime.value)) + 1) in
  if index =? -1 then list
  else {| value := splice_insert list.(Runtime.value) index value;
          _monitorUpToDate := false |}.

(** listDelete *)
Definition listDelete (random : number) (list : ListVariable) (idx : Value)
  : ListVariable :=
  if strictEq idx (VString "all") then
    {| value := []; _monitorUpToDate := list.(_monitorUpToDate) |}
  else
    let index := listIndex random idx (Z.of_nat (length list.(value))) in
    if index =? -1 then list
    else {| value := splice_delete list.(value) index;
            _monitorUpToDate := false |}.

(** The loop of listContents: is there an item whose string form does not
    have length 1? *)
Fixpoint listContents_loop (items : list Value) : bool :=
  match items with
  | [] => false
  | listItem :: rest =>
      if negb (String.length (ToString listItem) =? 1)%nat then true
      else listContents_loop rest
  end.

(** listContents *)
Definition listContents (list : ListVariable) : string :=
  if listContents_loop list.(value)
  then array_join list.(value) " "
  else array_join list.(value) "".

(** mod *)
Definition mod_ (n modulus : number) : number :=
  let result := Num.rem n modulus in
  if Num.ltb (Num.div result modulus) (Fin 0)
  then Num.add result modulus
  else result.

(** toBoolean *)
Definition toBoolean (value : Value) : bool :=
  match value with
  | VBool b => b
  | VString s =>
      if String.eqb s "" || String.eqb s "0" || String.eqb (Str.toLowerCase s) "false"
      then false else true
  | VNull | VUndefined => false
  | VNumber n => truthy n
  end.

(** compareGreaterThan; [s1 > s2] on strings is the order of the code units. *)
Definition compareGreaterThan (v1 v2 : Value) : bool :=
  let n1 := ToNumber v1 in
  let n2 := ToNumber v2 in
  let '(n1, n2) :=
    if Num.eqb n1 (Fin 0) && isWhiteSpace v1 then (NaN, n2)
    else if Num.eqb n2 (Fin 0) && isWhiteSpace v2 then (n1, NaN)
    else (n1, n2) in
  if isNaN n1 || isNaN n2 then
    let s1 := Str.toLowerCase (ToString v1) in
    let s2 := Str.toLowerCase (ToString v2) in
    String.ltb s2 s1
  else Num.gtb n1 n2.

(** compareLessThan *)
Definition compareLessThan (v1 v2 : Value) : bool :=
  let n1 := ToNumber v1 in
  let n2 := ToNumber v2 in
  let '(n1, n2) :=
    if Num.eqb n1 (Fin 0) && isWhiteSpace v1 then (NaN, n2)
    else if Num.eqb n2 (Fin 0) && isWhiteSpace v2 then (n1, NaN)
    else (n1, n2) in
  if isNaN n1 || isNaN n2 then
    let s1 := Str.toLowerCase (ToString v1) in
    let s2 := Str.toLowerCase (ToString v2) in
    String.ltb s1 s2
  else Num.ltb n1 n2.



(** The loop of listContains and of listIndexOf over the items from position
    [i] on: the position of the first item that compareEqual accepts. *)
Fixpoint compareEqual_loop (items : list Value) (item : Value) (i : Z) : option Z :=
  match items with
  | [] => None
  | x :: rest =>
      if compareEqual x item then Some i else compareEqual_loop rest item (i + 1)
  end.

(** listContains *)
Definition listContains (list : ListVariable) (item : Value) : bool :=
  if negb (array_indexOf list.(value) item =? -1) then true
  else
    match compareEqual_loop list.(value) item 0 with
    | Some _ => true
    | None => false
    end.

(** listIndexOf *)
Definition listIndexOf (list : ListVariable) (item : Value) : Z :=
  match compareEqual_loop list.(value) item 0 with
  | Some i => i + 1
  | None => 0
  end.

End Runtime.

(* ===================================================================== *)
(** ** The script assembler *)
(* ===================================================================== *)

Module Assembler.

(** The definitions are kept as source text, character for character as the
    runtime holds them.  Three of them are appended to [baseRuntime]; the
    others are the entries of [runtimeFunctions], in the order in which the
    keys are created. *)

Definition text_isStuck : string :=
"let stuckCounter = 0;
const isStuck = () => {
    // The real time is not checked on every call for performance.
    stuckCounter++;
    if (stuckCounter === 100) {
        stuckCounter = 0;
        return globalState.thread.target.runtime.sequencer.timer.timeElapsed() > 500;
    }
    return false;
}".

Definition text_startHats : string :=
"const startHats = (requestedHat, optMatchFields) => {
    const thread = globalState.thread;
    const threads = thread.target.runtime.startHats(requestedHat, optMatchFields);
    return threads;
}".

Definition text_waitThreads : string :=
"const waitThreads = function*(threads) {
    const thread = globalState.thread;
    const runtime = thread.target.runtime;

    while (true) {
        // determine whether any threads are running
        let anyRunning = false;
        for (let i = 0; i < threads.length; i++) {
            if (runtime.threads.indexOf(threads[i]) !== -1) {
                anyRunning = true;
                break;
            }
        }
        if (!anyRunning) {
            // all threads are finished, can resume
            return;
        }

        let allWaiting = true;
        for (let i = 0; i < threads.length; i++) {
            if (!runtime.isWaitingThread(threads[i])) {
                allWaiting = false;
                break;
            }
        }
        if (allWaiting) {
            thread.status = 3; // STATUS_YIELD_TICK
        }

        yield;
    }
}".

Definition text_executeInCompatibilityLayer : string :=
"let hasResumedFromPromise = false;
const waitPromise = function*(promise) {
    const thread = globalState.thread;
    let returnValue;

    promise
        .then(value => {
            returnValue = value;
            thread.status = 0; // STATUS_RUNNING
        })
        .catch(error => {
            thread.status = 0; // STATUS_RUNNING
            globalState.log.warn('Promise rejected in compiled script:', error);
        });

    // enter STATUS_PROMISE_WAIT and yield
    // this will stop script execution until the promise handlers reset the thread status
    thread.status = 1; // STATUS_PROMISE_WAIT
    yield;

    return returnValue;
};
const executeInCompatibilityLayer = function*(inputs, blockFunction, useFlags) {
    const thread = globalState.thread;

    // reset the stackframe
    // we only ever use one stackframe at a time, so this shouldn't cause issues
    thread.stackFrames[thread.stackFrames.length - 1].reuse(thread.warp > 0);

    const executeBlock = () => {
        const compatibilityLayerBlockUtility = globalState.compatibilityLayerBlockUtility;
        compatibilityLayerBlockUtility.thread = thread;
        compatibilityLayerBlockUtility.sequencer = thread.target.runtime.sequencer;
        return blockFunction(inputs, compatibilityLayerBlockUtility);
    };

    const isPromise = value => (
        // see engine/execute.js
        value !== null &&
        typeof value === 'object' &&
        typeof value.then === 'function'
    );

    let returnValue = executeBlock();

    if (isPromise(returnValue)) {
        returnValue = yield* waitPromise(returnValue);
        if (useFlags) {
            hasResumedFromPromise = true;
        }
        return returnValue;
    }

    while (thread.status === 2 /* STATUS_YIELD */ || thread.status === 3 /* STATUS_YIELD_TICK */) {
        // Yielded threads will run next iteration.
        if (thread.status === 2 /* STATUS_YIELD */) {
            thread.status = 0; // STATUS_RUNNING
            // Yield back to the event loop when stuck or not in warp mode.
            if (thread.warp === 0 || isStuck()) {
                yield;
            }
        } else {
            // status is STATUS_YIELD_TICK, always yield to the event loop
            yield;
        }

        returnValue = executeBlock();

        if (isPromise(returnValue)) {
            returnValue = yield* waitPromise(returnValue);
            if (useFlags) {
                hasResumedFromPromise = true;
            }
            return returnValue;
        }
    }

    // todo: do we have to do anything extra if status is STATUS_DONE?

    return returnValue;
}".

Definition text_callAddonBlock : string :=
"const callAddonBlock = function*(procedureCode, blockId, args) {
    const thread = globalState.thread;
    const addonBlock = thread.target.runtime.getAddonBlock(procedureCode);
    if (addonBlock) {
        const target = thread.target;
        addonBlock.callback(args, {
            // Shim enough of BlockUtility to make addons work
            peekStack () {
                return blockId;
            },
            target
        });
        if (thread.status === 1 /* STATUS_PROMISE_WAIT */) {
            yield;
        }
    }
}".

Definition text_retire : string :=
"const retire = () => {
    const thread = globalState.thread;
    thread.target.runtime.sequencer.retireThread(thread);
}".

Definition text_toBoolean : string :=
"const toBoolean = value => {
    if (typeof value === 'boolean') {
        return value;
    }
    if (typeof value === 'string') {
        if (value === '' || value === '0' || value.toLowerCase() === 'false') {
            return false;
        }
        return true;
    }
    return !!value;
}".

Definition base_isWhiteSpace : string :=
"
const isWhiteSpace = val => (
    val === null || (typeof val === 'string' && val.trim().length === 0)
);".

Definition base_compareEqual : string :=
"
const compareEqual = (v1, v2) => {
    let n1 = +v1;
    let n2 = +v2;
    if (n1 === 0 && isWhiteSpace(v1)) {
        n1 = NaN;
    } else if (n2 === 0 && isWhiteSpace(v2)) {
        n2 = NaN;
    }
    if (isNaN(n1) || isNaN(n2)) {
        const s1 = ('' + v1).toLowerCase();
        const s2 = ('' + v2).toLowerCase();
        return s1 === s2;
    }
    return n1 === n2;
};".

Definition text_compareGreaterThan : string :=
"const compareGreaterThan = (v1, v2) => {
    let n1 = +v1;
    let n2 = +v2;
    if (n1 === 0 && isWhiteSpace(v1)) {
        n1 = NaN;
    } else if (n2 === 0 && isWhiteSpace(v2)) {
        n2 = NaN;
    }
    if (isNaN(n1) || isNaN(n2)) {
        const s1 = ('' + v1).toLowerCase();
        const s2 = ('' + v2).toLowerCase();
        return s1 > s2;
    }
    return n1 > n2;
}".

Definition text_compareLessThan : string :=
"const compareLessThan = (v1, v2) => {
    let n1 = +v1;
    let n2 = +v2;
    if (n1 === 0 && isWhiteSpace(v1)) {
        n1 = NaN;
    } else if (n2 === 0 && isWhiteSpace(v2)) {
        n2 = NaN;
    }
    if (isNaN(n1) || isNaN(n2)) {
        const s1 = ('' + v1).toLowerCase();
        const s2 = ('' + v2).toLowerCase();
        return s1 < s2;
    }
    return n1 < n2;
}".

Definition text_randomInt : string :=
"const randomInt = (low, high) => low + Math.floor(Math.random() * ((high + 1) - low))".

Definition text_randomFloat : string :=
"const randomFloat = (low, high) => (Math.random() * (high - low)) + low".

Definition text_timer : string :=
"const timer = () => {
    const t = new globalState.Timer({
        now: () => globalState.thread.target.runtime.currentMSecs
    });
    t.start();
    return t;
}".

Definition text_daysSince2000 : string :=
"const daysSince2000 = () => (Date.now() - 946684800000) / (24 * 60 * 60 * 1000)".

Definition text_distance : string :=
"const distance = menu => {
    const thread = globalState.thread;
    if (thread.target.isStage) return 10000;

    let targetX = 0;
    let targetY = 0;
    if (menu === '_mouse_') {
        targetX = thread.target.runtime.ioDevices.mouse.getScratchX();
        targetY = thread.target.runtime.ioDevices.mouse.getScratchY();
    } else {
        const distTarget = thread.target.runtime.getSpriteTargetByName(menu);
        if (!distTarget) return 10000;
        targetX = distTarget.x;
        targetY = distTarget.y;
    }

    const dx = thread.target.x - targetX;
    const dy = thread.target.y - targetY;
    return Math.sqrt((dx * dx) + (dy * dy));
}".

Definition base_listIndex : string :=
"
const listIndex = (index, length) => {
    if (typeof index !== 'number') {
        if (index === 'last') {
            if (length > 0) {
                return length - 1;
            }
            return -1;
        } else if (index === 'random' || index === '*') {
            if (length > 0) {
                return (Math.random() * length) | 0;
            }
            return -1;
        }
        index = +index || 0;
    }
    index = index | 0;
    if (index < 1 || index > length) {
        return -1;
    }
    return index - 1;
};".

Definition text_listGet : string :=
"const listGet = (list, idx) => {
    const index = listIndex(idx, list.length);
    if (index === -1) {
        return '';
    }
    return list[index];
}".

Definition text_listReplace : string :=
"const listReplace = (list, idx, value) => {
    const index = listIndex(idx, list.value.length);
    if (index === -1) {
        return;
    }
    list.value[index] = value;
    list._monitorUpToDate = false;
}".

Definition text_listInsert : string :=
"const listInsert = (list, idx, value) => {
    const index = listIndex(idx, list.value.length + 1);
    if (index === -1) {
        return;
    }
    list.value.splice(index, 0, value);
    list._monitorUpToDate = false;
}".

Definition text_listDelete : string :=
"const listDelete = (list, idx) => {
    if (idx === 'all') {
        list.value = [];
        return;
    }
    const index = listIndex(idx, list.value.length);
    if (index === -1) {
        return;
    }
    list.value.splice(index, 1);
    list._monitorUpToDate = false;
}".

Definition text_listContains : string :=
"const listContains = (list, item) => {
    // TODO: evaluate whether indexOf is worthwhile here
    if (list.value.indexOf(item) !== -1) {
        return true;
    }
    for (let i = 0; i < list.value.length; i++) {
        if (compareEqual(list.value[i], item)) {
            return true;
        }
    }
    return false;
}".

Definition text_listIndexOf : string :=
"const listIndexOf = (list, item) => {
    for (let i = 0; i < list.value.length; i++) {
        if (compareEqual(list.value[i], item)) {
            return i + 1;
        }
    }
    return 0;
}".

Definition text_listContents : string :=
"const listContents = list => {
    for (let i = 0; i < list.value.length; i++) {
        const listItem = list.value[i];
        // this is an intentional break from what scratch 3 does to address our automatic string -> number conversions
        // it fixes more than it breaks
        if ((listItem + '').length !== 1) {
            return list.value.join(' ');
        }
    }
    return list.value.join('');
}".

Definition text_colorToList : string :=
"const colorToList = color => globalState.Cast.toRgbColorList(color)".

Definition text_mod : string :=
"const mod = (n, modulus) => {
    let result = n % modulus;
    if (result / modulus < 0) result += modulus;
    return result;
}".

Definition baseRuntime : string :=
  "" ++ base_isWhiteSpace ++ base_compareEqual ++ base_listIndex.

Definition runtimeFunctions : list (string * string) :=
  [ ("isStuck", text_isStuck);
    ("startHats", text_startHats);
    ("waitThreads", text_waitThreads);
    ("executeInCompatibilityLayer", text_executeInCompatibilityLayer);
    ("callAddonBlock", text_callAddonBlock);
    ("retire", text_retire);
    ("toBoolean", text_toBoolean);
    ("compareGreaterThan", text_compareGreaterThan);
    ("compareLessThan", text_compareLessThan);
    ("randomInt", text_randomInt);
    ("randomFloat", text_randomFloat);
    ("timer", text_timer);
    ("daysSince2000", text_daysSince2000);
    ("distance", text_distance);
    ("listGet", text_listGet);
    ("listReplace", text_listReplace);
    ("listInsert", text_listInsert);
    ("listDelete", text_listDelete);
    ("listContains", text_listContains);
    ("listIndexOf", text_listIndexOf);
    ("listContents", text_listContents);
    ("colorToList", text_colorToList);
    ("mod", text_mod) ].


(** The loop of insertRuntime over [Object.keys(runtimeFunctions)]. *)
Fixpoint insertRuntime_loop (source : string) (fns : list (string * string))
  (result : string) : string :=
  match fns with
  | [] => result
  | (functionName, text) :: rest =>
      insertRuntime_loop source rest
        (if Str.includes source functionName then result ++ text ++ ";" else result)
  end.

(** insertRuntime *)
Definition insertRuntime (source : string) : string :=
  let result := insertRuntime_loop source runtimeFunctions baseRuntime in
  result ++ "return " ++ source.

End Assembler.

(* ===================================================================== *)
(** ** State passing *)
(* ===================================================================== *)

(** The helpers below read and write shared state; they are written in a
    state monad over it. *)
Definition M (S A : Type) : Type := S -> A * S.

Definition ret {S A : Type} (a : A) : M S A := fun s => (a, s).

Definition bind {S A B : Type} (m : M S A) (k : A -> M S B) : M S B :=
  fun s => let (a, s') := m s in k a s'.

Definition gets {S A : Type} (f : S -> A) : M S A := fun s => (f s, s).

Definition modify {S : Type} (f : S -> S) : M S unit := fun s => (tt, f s).

Declare Scope monad_scope.
Delimit Scope monad_scope with monad.
Notation "x <- m ;; k" := (bind m (fun x => k))
  (at level 61, m at next level, right associativity) : monad_scope.
Notation "m ;; k" := (bind m (fun _ => k))
  (at level 61, right associativity) : monad_scope.

(** What one call of [next()] on a generator ends in: a [yield] (with the
    frame of locals the next resumption starts from), a [return], or an
    exception. *)
Inductive Step (F A : Type) : Type :=
| Yield (frame : F)
| Return (a : A)
| Throw (error : string).
Arguments Yield {F A} frame.
Arguments Return {F A} a.
Arguments Throw {F A} error.

(* ===================================================================== *)
(** ** The suspension protocol and the support helpers *)
(* ===================================================================== *)

Module Suspension.
Import Num Val.
Local Open Scope monad_scope.

(** Threads are objects compared by identity. *)
Definition ThreadId : Type := nat.

Definition STATUS_RUNNING : Z := 0.
Definition STATUS_PROMISE_WAIT : Z := 1.
Definition STATUS_YIELD : Z := 2.
Definition STATUS_YIELD_TICK : Z := 3.
Definition STATUS_DONE : Z := 4.

(** The state the helpers share with the rest of the engine. *)
Record World : Type := mkWorld {
  thread : ThreadId;                   (* globalState.thread *)
  status : ThreadId -> Z;              (* the status field of every thread *)
  threads : list ThreadId;             (* runtime.threads *)
  isWaitingThread : ThreadId -> bool;  (* runtime.isWaitingThread *)
  timeElapsed : nat -> number;         (* what the k-th reading of the
                                          sequencer's timer returns *)
  timerReads : nat;                    (* how often the timer has been read *)
  stuckCounter : Z;                    (* let stuckCounter = 0 *)
  warnings : list (string * Value)     (* what globalState.log.warn received *)
}.

Definition initial_counter : Z := 0.

Definition set_status (t : ThreadId) (s : Z) : M World unit :=
  modify (fun w =>
    mkWorld w.(thread) (fun t' => if Nat.eqb t' t then s else w.(status) t')
            w.(threads) w.(isWaitingThread) w.(timeElapsed) w.(timerReads)
            w.(stuckCounter) w.(warnings)).

Definition set_stuckCounter (c : Z) : M World unit :=
  modify (fun w =>
    mkWorld w.(thread) w.(status) w.(threads) w.(isWaitingThread)
            w.(timeElapsed) w.(timerReads) c w.(warnings)).

(** [sequencer.timer.timeElapsed()]: a reading of the clock. *)
Definition read_timer : M World number :=
  fun w =>
    (w.(timeElapsed) w.(timerReads),
     mkWorld w.(thread) w.(status) w.(threads) w.(isWaitingThread)
             w.(timeElapsed) (S w.(timerReads)) w.(stuckCounter) w.(warnings)).

(** [globalState.log.warn(message, error)] *)
Definition log_warn (message : string) (error : Value) : M World unit :=
  modify (fun w =>
    mkWorld w.(thread) w.(status) w.(threads) w.(isWaitingThread)
            w.(timeElapsed) w.(timerReads) w.(stuckCounter)
            (w.(warnings) ++ [(message, error)])%list).

(** isStuck *)
Definition isStuck : M World bool :=
  c <- gets stuckCounter ;;
  set_stuckCounter (c + 1) ;;
  c <- gets stuckCounter ;;
  if c =? 100 then
    set_stuckCounter 0 ;;
    t <- read_timer ;;
    ret (Num.gtb t (ofZ 500))
  else ret false.

(** [a.indexOf(t)] on an array of threads: the first position, or -1. *)
Fixpoint indexOf_from (a : list ThreadId) (t : ThreadId) (i : Z) : Z :=
  match a with
  | [] => -1
  | x :: r => if Nat.eqb x t then i else indexOf_from r t (i + 1)
  end.

Definition indexOf (a : list ThreadId) (t : ThreadId) : Z := indexOf_from a t 0.

(** The locals of a waitThreads generator. *)
Record WaitThreadsFrame : Type := {
  wt_threads : list ThreadId;
  wt_thread : ThreadId
}.

(** One round of the [while (true)] loop of waitThreads, up to its [yield] or
    its [return]. *)
Definition waitThreads_loop (f : WaitThreadsFrame) : M World (Step WaitThreadsFrame unit) :=
  active <- gets threads ;;
  let anyRunning := existsb (fun t => negb (indexOf active t =? -1)) f.(wt_threads) in
  if negb anyRunning then ret (Return tt)
  else
    waiting <- gets isWaitingThread ;;
    let allWaiting := forallb waiting f.(wt_threads) in
    (if allWaiting then set_status f.(wt_thread) STATUS_YIELD_TICK else ret tt) ;;
    ret (Yield f).

(** waitThreads: the first [next()] binds the locals and enters the loop;
    every later one re-enters the loop after the [yield]. *)
Definition waitThreads (threads : list ThreadId) : M World (Step WaitThreadsFrame unit) :=
  thread <- gets thread ;;
  waitThreads_loop {| wt_threads := threads; wt_thread := thread |}.

Definition waitThreads_next (f : WaitThreadsFrame) : M World (Step WaitThreadsFrame unit) :=
  waitThreads_loop f.

(** Runs a generator to its end: after each [yield] the rest of the engine
    ([env], told how many yields there have been) acts on the state, and the
    generator is resumed.  The result is the outcome, if the generator ends
    within [fuel] resumptions, with the number of times it was suspended. *)
Fixpoint drive {F A : Type} (next : F -> M World (Step F A))
  (env : nat -> World -> World) (fuel : nat) (yields : nat)
  (s : Step F A) (w : World) : option (A + string) * nat * World :=
  match s with
  | Return a => (Some (inl a), yields, w)
  | Throw e => (Some (inr e), yields, w)
  | Yield f =>
      match fuel with
      | O => (None, S yields, w)
      | S fuel' =>
          let (s', w') := next f (env yields w) in
          drive next env fuel' (S yields) s' w'
      end
  end.

(** How a promise settles. *)
Inductive Settlement : Type :=
| Fulfilled (value : Value)
| Rejected (error : Value).

(** The locals of a waitPromise generator; the promise handlers close over
    them. *)
Record WaitPromiseFrame : Type := {
  wp_thread : ThreadId;
  wp_returnValue : Value
}.

(** The handler passed to [then]. *)
Definition onFulfilled (value : Value) (f : WaitPromiseFrame)
  : M World WaitPromiseFrame :=
  set_status f.(wp_thread) STATUS_RUNNING ;;
  ret {| wp_thread := f.(wp_thread); wp_returnValue := value |}.

(** The handler passed to [catch]. *)
Definition onRejected (error : Value) (f : WaitPromiseFrame)
  : M World WaitPromiseFrame :=
  set_status f.(wp_thread) STATUS_RUNNING ;;
  log_warn "Promise rejected in compiled script:" error ;;
  ret f.

(** [promise.then(onFulfilled).catch(onRejected)]: the job that runs once the
    promise is settled.  A fulfilment goes to the first handler, a rejection
    passes through [then] to the second. *)
Definition settle (s : Settlement) (f : WaitPromiseFrame) : M World WaitPromiseFrame :=
  match s with
  | Fulfilled value => onFulfilled value f
  | Rejected error => onRejected error f
  end.

(** waitPromise, first [next()]: the locals are bound, the handlers are
    attached, the thread enters STATUS_PROMISE_WAIT and the generator yields. *)
Definition waitPromise : M World (Step WaitPromiseFrame Value) :=
  thread <- gets thread ;;
  let f := {| wp_thread := thread; wp_returnValue := VUndefined |} in
  set_status thread STATUS_PROMISE_WAIT ;;
  ret (Yield f).

(** waitPromise, second [next()]: [return returnValue]. *)
Definition waitPromise_next (f : WaitPromiseFrame) : M World (Step WaitPromiseFrame Value) :=
  ret (Return f.(wp_returnValue)).

(** [globalState.thread = thread] *)
Definition set_thread (t : ThreadId) : M World unit :=
  modify (fun w =>
    mkWorld t w.(status) w.(threads) w.(isWaitingThread) w.(timeElapsed)
            w.(timerReads) w.(stuckCounter) w.(warnings)).

(** execute: the thread becomes the current one and its generator is advanced
    by one [next()].  The generator is given by what that call runs. *)
Definition execute {F A : Type} (generator_next : M World (Step F A)) (thread : ThreadId)
  : M World (Step F A) :=
  set_thread thread ;;
  generator_next.

End Suspension.

(* ===================================================================== *)
(** ** EventEmitter *)
(* ===================================================================== *)

Module Emitter.

(** The values this class handles.  [JEntry] is the object
    [{eventName, listener}] that [on] creates. *)
Inductive JsVal : Type :=
| JUndefined
| JNumber (n : Z)
| JString (s : string)
| JFunction (id : nat)
| JEntry (eventName : JsVal) (listener : JsVal).

(** [x === y] where [y] is a string: only an equal string is equal to it. *)
Definition strictEq_string (x : JsVal) (y : string) : bool :=
  match x with
  | JString s => String.eqb s y
  | _ => false
  end.

(** [a.indexOf(s)] for a string [s] *)
Fixpoint indexOf_from (a : list JsVal) (s : string) (i : Z) : Z :=
  match a with
  | [] => -1
  | x :: r => if strictEq_string x s then i else indexOf_from r s (i + 1)
  end.

Definition indexOf (a : list JsVal) (s : string) : Z := indexOf_from a s 0.

(** [v.listener]: the field of an entry object; a number, a string and a
    function have no property of that name.  Reading a property of
    undefined throws. *)
Definition get_listener (v : JsVal) : JsVal + string :=
  match v with
  | JEntry _ listener => inl listener
  | JUndefined => inr "TypeError"
  | _ => inl JUndefined
  end.

(** A call [f(param)]: the function called and the array it was given. *)
Definition Call : Type := (nat * list JsVal)%type.

Record EventEmitter : Type := {
  listerMap : list JsVal;
  calls : list Call        (* the listeners invoked so far *)
}.

(** constructor *)
Definition new : EventEmitter := {| listerMap := []; calls := [] |}.

(** on *)
Definition on (eventName : string) (listener : nat) : M EventEmitter unit :=
  modify (fun this =>
    {| listerMap :=
         (this.(listerMap) ++ [JEntry (JString eventName) (JFunction listener)])%list;
       calls := this.(calls) |}).

(** emit: what the call ends in ([inl tt] for a normal return, [inr] for the
    exception thrown).  The rest parameter [param] reaches the callee as one
    array argument. *)
Definition emit (eventName : string) (param : list JsVal) : M EventEmitter (unit + string) :=
  fun this =>
    let emitter := JNumber (indexOf this.(listerMap) eventName) in
    match get_listener emitter with
    | inr e => (inr e, this)
    | inl (JFunction id) =>
        (inl tt, {| listerMap := this.(listerMap);
                    calls := (this.(calls) ++ [(id, param)])%list |})
    | inl _ => (inr "TypeError", this)
    end.

End Emitter.

(* ===================================================================== *)
(** ** The compatibility layer *)
(* ===================================================================== *)

Module Compat.
Import Num Val Suspension.
Local Open Scope monad_scope.

(** What a block function returns: a plain value, or a promise (an object
    with a [then] method whose result has a [catch] method, as the promises of
    the language have). *)
Inductive Returned : Type :=
| Plain (v : Value)
| Promise (id : nat).

(** isPromise *)
Definition isPromise (value : Returned) : bool :=
  match value with
  | Promise _ => true
  | Plain _ => false
  end.

(** The state executeInCompatibilityLayer works on: the state of the
    suspension helpers, the warp counter of every thread, the flag
    hasResumedFromPromise, the calls made to [reuse] on the top stack frame, the
    thread the block utility is bound to; [executions] counts the calls of the
    block function (bookkeeping, not a variable of the source). *)
Record State : Type := mkState {
  world : World;
  warp : ThreadId -> Z;
  hasResumedFromPromise : bool;
  reused : list (ThreadId * bool);
  utility_thread : option ThreadId;
  executions : nat
}.

(** A helper of the suspension protocol, run on the larger state. *)
Definition lift {A : Type} (m : M World A) : M State A :=
  fun s =>
    let (a, w) := m s.(world) in
    (a, mkState w s.(warp) s.(hasResumedFromPromise) s.(reused) s.(utility_thread)
                s.(executions)).

(** [thread.stackFrames[thread.stackFrames.length - 1].reuse(thread.warp > 0)] *)
Definition reuse (t : ThreadId) (warpMode : bool) : M State unit :=
  modify (fun s =>
    mkState s.(world) s.(warp) s.(hasResumedFromPromise)
            (s.(reused) ++ [(t, warpMode)])%list s.(utility_thread) s.(executions)).

Definition set_hasResumedFromPromise (b : bool) : M State unit :=
  modify (fun s =>
    mkState s.(world) s.(warp) b s.(reused) s.(utility_thread) s.(executions)).

(** executeBlock: the utility is bound to the thread, then the block function
    runs.  [blockFunction] stands for the call
    [blockFunction(inputs, compatibilityLayerBlockUtility)], with whatever it
    does to the state. *)
Definition executeBlock (blockFunction : M State Returned) (thread : ThreadId)
  : M State Returned :=
  modify (fun s =>
    mkState s.(world) s.(warp) s.(hasResumedFromPromise) s.(reused) (Some thread)
            (S s.(executions))) ;;
  blockFunction.

(** Where the generator is suspended: inside [yield* waitPromise(...)], or at
    one of the two [yield]s of the loop. *)
Inductive Frame : Type :=
| InWaitPromise (f : WaitPromiseFrame)
| InLoop (thread : ThreadId).

(** The end of both promise branches: [if (useFlags) hasResumedFromPromise =
    true; return returnValue]. *)
Definition finish (useFlags : bool) (returnValue : Value) : M State (option (Step Frame Value)) :=
  (if useFlags then set_hasResumedFromPromise true else ret tt) ;;
  ret (Some (Return returnValue)).

(** [yield* waitPromise(returnValue)] and what follows it, from a step of the
    inner generator on. *)
Definition delegate (useFlags : bool) (step : Step WaitPromiseFrame Value)
  : M State (option (Step Frame Value)) :=
  match step with
  | Yield f => ret (Some (Yield (InWaitPromise f)))
  | Return returnValue => finish useFlags returnValue
  | Throw e => ret (Some (Throw e))
  end.

(** [isStuck()], as the layer calls it.  The layer and isStuck are two entries
    of runtimeFunctions, and insertRuntime puts an entry into the unit of a
    script only if the text of the script contains the key of the entry
    ([source.includes(functionName)]).  [source] is that text: when "isStuck"
    does not occur in it the unit declares no isStuck, and the call throws a
    ReferenceError ([None] here). *)
Definition call_isStuck (source : string) : M State (option bool) :=
  if Str.includes source "isStuck" then
    stuck <- lift isStuck ;;
    ret (Some stuck)
  else ret None.

(** The code after each [returnValue = executeBlock()]: the promise test, then
    the [while] loop, up to the next [yield], [return] or exception.  A round of
    the loop that does not yield runs the block again at once; [fuel] bounds the
    number of such rounds, and [None] means that it ran out.  [source] is the
    script the unit was assembled for. *)
Fixpoint after_executeBlock (source : string) (blockFunction : M State Returned)
  (useFlags : bool) (thread : ThreadId) (fuel : nat) (returnValue : Returned)
  : M State (option (Step Frame Value)) :=
  match returnValue with
  | Promise _ =>
      step <- lift waitPromise ;;
      delegate useFlags step
  | Plain value =>
      st <- gets (fun s => status s.(world) thread) ;;
      if (st =? STATUS_YIELD) || (st =? STATUS_YIELD_TICK) then
        if st =? STATUS_YIELD then
          lift (set_status thread STATUS_RUNNING) ;;
          w <- gets (fun s => s.(warp) thread) ;;
          yields <- (if w =? 0 then ret (Some true) else call_isStuck source) ;;
          match yields with
          | None => ret (Some (Throw "ReferenceError"))
          | Some true => ret (Some (Yield (InLoop thread)))
          | Some false =>
              match fuel with
              | O => ret None
              | S fuel' =>
                  returnValue' <- executeBlock blockFunction thread ;;
                  after_executeBlock source blockFunction useFlags thread fuel' returnValue'
              end
          end
        else ret (Some (Yield (InLoop thread)))
      else ret (Some (Return value))
  end.

(** executeInCompatibilityLayer, first [next()] *)
Definition executeInCompatibilityLayer (source : string) (blockFunction : M State Returned)
  (useFlags : bool) (fuel : nat) : M State (option (Step Frame Value)) :=
  thread <- gets (fun s => thread s.(world)) ;;
  w <- gets (fun s => s.(warp) thread) ;;
  reuse thread (w >? 0) ;;
  returnValue <- executeBlock blockFunction thread ;;
  after_executeBlock source blockFunction useFlags thread fuel returnValue.

(** executeInCompatibilityLayer, a later [next()] *)
Definition executeInCompatibilityLayer_next (source : string)
  (blockFunction : M State Returned) (useFlags : bool) (fuel : nat) (f : Frame)
  : M State (option (Step Frame Value)) :=
  match f with
  | InWaitPromise wf =>
      step <- lift (waitPromise_next wf) ;;
      delegate useFlags step
  | InLoop thread =>
      returnValue <- executeBlock blockFunction thread ;;
      after_executeBlock source blockFunction useFlags thread fuel returnValue
  end.

(** The promise of a suspended generator settles: its handlers run. *)
Definition settle_frame (outcome : Settlement) (f : Frame) : M State Frame :=
  match f with
  | InWaitPromise wf =>
      wf' <- lift (settle outcome wf) ;;
      ret (InWaitPromise wf')
  | InLoop thread => ret (InLoop thread)
  end.

(** A block function that asks to yield, the way [util.yield()] does: the
    status of the thread of the utility becomes STATUS_YIELD. *)
Definition yielding_block (v : Value) : M State Returned :=
  t <- gets utility_thread ;;
  match t with
  | Some thread => lift (set_status thread STATUS_YIELD)
  | None => ret tt
  end ;;
  ret (Plain v).

End Compat.

(* ===================================================================== *)
(** ** Variable *)
(* ===================================================================== *)

(** The class Variable (a reserved word here, hence the module's name). *)
Module ScratchVariable.

(** What a variable holds: a single value, or the items of a list. *)
Inductive Contents : Type :=
| Scalar (v : Val.Value)
| Items (l : list Val.Value).

Record t : Type := {
  id : string;
  name : string;
  type : string;
  isCloud : bool;
  value : Contents
}.

Definition SCALAR_TYPE : string := "".
Definition LIST_TYPE : string := "list".
Definition BROADCAST_MESSAGE_TYPE : string := "broadcast_msg".

(** constructor: the variable, or the message of the Error thrown.  [uid] is
    what [uid()] returns if it is called, which happens when [id] is empty. *)
Definition new (uid : string) (id name type : string) (isCloud : bool)
  : t + string :=
  let id := if String.eqb id "" then uid else id in
  if String.eqb type SCALAR_TYPE then
    inl {| id := id; name := name; type := type; isCloud := isCloud;
           value := Scalar (Val.VNumber (Num.Fin 0)) |}
  else if String.eqb type LIST_TYPE then
    inl {| id := id; name := name; type := type; isCloud := isCloud;
           value := Items [] |}
  else if String.eqb type BROADCAST_MESSAGE_TYPE then
    inl {| id := id; name := name; type := type; isCloud := isCloud;
           value := Scalar (Val.VString name) |}
  else inr ("Invalid variable type: " ++ type).

End ScratchVariable.

(* ===================================================================== *)
(** ** Notions the properties are stated with *)
(* ===================================================================== *)

(** The entries of [runtimeFunctions] whose key occurs in [source], in the
    order of the table. *)
Definition referenced (source : string) : list (string * string) :=
  filter (fun entry => Str.includes source (fst entry)) Assembler.runtimeFunctions.

(** The texts of some entries, one after the other, each closed by a
    semicolon. *)
Definition definitions_of (entries : list (string * string)) : string :=
  fold_right (fun entry rest => snd entry ++ ";" ++ rest) "" entries.

(** The assembled unit in the words of the specification, for comparison with
    [Assembler.insertRuntime]: the base definitions it names (isWhiteSpace and
    compareEqual), the referenced primitives, the script as the produced
    value. *)
Definition unit_as_specified (source : string) : string :=
  Assembler.base_isWhiteSpace ++ Assembler.base_compareEqual ++
  definitions_of (referenced source) ++ "return " ++ source.

(** [n] calls of isStuck in a row, with their results in order. *)
Fixpoint isStuck_calls (n : nat) : M Suspension.World (list bool) :=
  match n with
  | O => ret []
  | S k =>
      bind Suspension.isStuck (fun b =>
      bind (isStuck_calls k) (fun bs => ret (b :: bs)))
  end.

(** A state to try the helpers on: thread 0 is current and RUNNING, threads 1
    and 2 are active and not waiting, the timer reads 501 ms, nothing has been
    logged. *)
Definition sample_world : Suspension.World :=
  Suspension.mkWorld 0%nat (fun _ => Suspension.STATUS_RUNNING) [1%nat; 2%nat]
    (fun _ => false) (fun _ => Num.ofZ 501) 0%nat Suspension.initial_counter [].

(** The emitter after a series of registrations [on(eventName, listener)],
    starting from a new one. *)
Definition registered (registrations : list (string * nat)) : Emitter.EventEmitter :=
  fold_left (fun this r => snd (Emitter.on (fst r) (snd r) this)) registrations Emitter.new.

(** The indices listIndex treats by name. *)
Definition symbolic (index : Val.Value) : bool :=
  Val.strictEq index (Val.VString "last") ||
  Val.strictEq index (Val.VString "random") ||
  Val.strictEq index (Val.VString "*").

(** The number listIndex works with for any other index: the index itself if
    it is a number, [+index || 0] otherwise. *)
Definition index_number (index : Val.Value) : Num.number :=
  match index with
  | Val.VNumber n => n
  | _ => let n := Val.ToNumber index in if Num.truthy n then n else Num.Fin 0
  end.

(** Whether the comparisons take the string path for two operands. *)
Definition compares_as_strings (v1 v2 : Val.Value) : bool :=
  Runtime.isWhiteSpace v1 || Runtime.isWhiteSpace v2
  || Num.isNaN (Val.ToNumber v1) || Num.isNaN (Val.ToNumber v2).

(** Exactly one of three booleans is true. *)
Definition exactly_one (a b c : bool) : Prop :=
  (a = true /\ b = false /\ c = false) \/
  (a = false /\ b = true /\ c = false) \/
  (a = false /\ b = false /\ c = true).

(** The integers that a JavaScript number holds exactly, every one of them: the
    magnitude is at most 2^53.  Sums, differences and remainders of such
    integers that are again in this range are computed without rounding. *)
Definition safe_integer (z : Z) : Prop :=
  - 9007199254740992 <= z <= 9007199254740992.


(** The state after [thread.status = 0] in the loop of the compatibility layer. *)
Definition running (t : Suspension.ThreadId) (s : Compat.State) : Compat.State :=
  snd (Compat.lift (Suspension.set_status t Suspension.STATUS_RUNNING) s).

(** What holds of the thread's status at each way out of a step of
    executeInCompatibilityLayer that runs the block function: on return, at a
    [yield] of the loop, at the [yield] inside waitPromise, and at the
    exception of a call of isStuck that the unit of [source] does not
    declare. *)
Definition exit_status (source : string) (t : Suspension.ThreadId)
  (r : option (Step Compat.Frame Val.Value) * Compat.State) : Prop :=
  match r with
  | (Some (Return _), s') =>
      Suspension.status (Compat.world s') t <> Suspension.STATUS_YIELD /\
      Suspension.status (Compat.world s') t <> Suspension.STATUS_YIELD_TICK
  | (Some (Yield (Compat.InLoop t')), s') =>
      t' = t /\
      (Suspension.status (Compat.world s') t = Suspension.STATUS_RUNNING \/
       Suspension.status (Compat.world s') t = Suspension.STATUS_YIELD_TICK)
  | (Some (Yield (Compat.InWaitPromise wf)), s') =>
      Suspension.wp_thread wf = Suspension.thread (Compat.world s') /\
      Suspension.status (Compat.world s') (Suspension.wp_thread wf) =
        Suspension.STATUS_PROMISE_WAIT
  | (Some (Throw error), s') =>
      error = "ReferenceError" /\
      Str.includes source "isStuck" = false /\
      Compat.warp s' t <> 0 /\
      Suspension.status (Compat.world s') t = Suspension.STATUS_RUNNING
  | (None, _) => True
  end.

(** The state a resumption after the promise leaves: only the flag
    hasResumedFromPromise can have changed. *)
Definition resumed (useFlags : bool) (s : Compat.State) : Compat.State :=
  Compat.mkState (Compat.world s) (Compat.warp s)
    (useFlags || Compat.hasResumedFromPromise s) (Compat.reused s)
    (Compat.utility_thread s) (Compat.executions s).

(** A state of the compatibility layer over the sample state of the helpers,
    every thread having warp counter [w]. *)
Definition sample_state (w : Z) : Compat.State :=
  Compat.mkState sample_world (fun _ => w) false [] None 0.

(** What the rest of the engine does in the witness of the waitThreads run:
    every thread ends. *)
Definition all_threads_end (w : Suspension.World) : Suspension.World :=
  Suspension.mkWorld (Suspension.thread w) (Suspension.status w) []
    (Suspension.isWaitingThread w) (Suspension.timeElapsed w) (Suspension.timerReads w)
    (Suspension.stuckCounter w) (Suspension.warnings w).

(** The entry [on(eventName, listener)] adds to the array. *)
Definition entry_of (registration : string * nat) : Emitter.JsVal :=
  Emitter.JEntry (Emitter.JString (fst registration)) (Emitter.JFunction (snd registration)).

(* ===================================================================== *)
(** * Properties *)
(* ===================================================================== *)

Import Num Val.

(** ** Comparison *)

Lemma length_zero_empty (s : string) :
  (String.length s =? 0)%nat = true -> s = "".
Proof.
  destruct s as [|c r]; [reflexivity | discriminate].
Qed.

(** A string trims to nothing exactly when all its characters are white
    space. *)
Lemma trim_all_white (s : string) :
  (String.length (Str.trim s) =? 0)%nat = Str.all_white s.
Proof.
  unfold Str.trim. induction s as [|c r IH]; [reflexivity|].
  simpl. destruct (Str.is_white c) eqn:E; simpl; [exact IH|].
  rewrite E. reflexivity.
Qed.

(** What isWhiteSpace accepts coerces to zero: the first half of the two tests
    [n === 0 && isWhiteSpace(v)] is implied by the second. *)
Lemma isWhiteSpace_ToNumber (v : Value) :
  Runtime.isWhiteSpace v = true -> ToNumber v = Fin 0.
Proof.
  destruct v as [| |b|n|s]; simpl; try discriminate; [reflexivity|].
  intros H. apply length_zero_empty in H.
  unfold ofString. rewrite H. reflexivity.
Qed.

Lemma isWhiteSpace_zero (v : Value) :
  Num.eqb (ToNumber v) (Fin 0) && Runtime.isWhiteSpace v = Runtime.isWhiteSpace v.
Proof.
  destruct (Runtime.isWhiteSpace v) eqn:E.
  - rewrite (isWhiteSpace_ToNumber v E). reflexivity.
  - apply andb_false_r.
Qed.

(** C1, as the code has it.  compareEqual coerces both operands to numbers; an
    operand that isWhiteSpace accepts (null, or a string all of whose characters
    are white space; all of these coerce to zero) counts as not-a-number; when either side is
    not-a-number the operands are compared as lower-cased strings, and as
    numbers otherwise.  On the literal cases: compareEqual(" ", 0) is false,
    compareEqual("0", 0) is true, compareEqual(" ", "") is false. *)
Theorem compareEqual_whitespace_and_fallback :
  (forall s, Runtime.isWhiteSpace (VString s) = Str.all_white s) /\
  (forall v, Runtime.isWhiteSpace v = true -> ToNumber v = Fin 0) /\
  (forall v1 v2,
     Runtime.compareEqual v1 v2 =
       if Runtime.isWhiteSpace v1 || Runtime.isWhiteSpace v2
          || isNaN (ToNumber v1) || isNaN (ToNumber v2)
       then String.eqb (Str.toLowerCase (ToString v1)) (Str.toLowerCase (ToString v2))
       else Num.eqb (ToNumber v1) (ToNumber v2)) /\
  Runtime.compareEqual (VString " ") (VNumber (ofZ 0)) = false /\
  Runtime.compareEqual (VString "0") (VNumber (ofZ 0)) = true /\
  Runtime.compareEqual (VString " ") (VString "") = false.
Proof.
  split; [exact trim_all_white|].
  split; [exact isWhiteSpace_ToNumber|].
  split; [|repeat split; reflexivity].
  intros v1 v2. unfold Runtime.compareEqual.
  rewrite !isWhiteSpace_zero.
  destruct (Runtime.isWhiteSpace v1); simpl; [reflexivity|].
  destruct (Runtime.isWhiteSpace v2); simpl.
  - rewrite orb_true_r. reflexivity.
  - reflexivity.
Qed.

(** A string of blanks and tabs coerces to zero. *)
Lemma compareEqual_whitespace_witness :
  ToNumber (VString "   ") = Fin 0.
Proof.
  apply (proj1 (proj2 compareEqual_whitespace_and_fallback) (VString "   ")).
  reflexivity.
Defined.

(** C1 as the specification states it fails: the white-space operand does not
    compare equal to 0, nor to the empty string. *)
Lemma compareEqual_space_counterexample :
  Runtime.compareEqual (VString " ") (VNumber (ofZ 0)) <> true /\
  Runtime.compareEqual (VString " ") (VString "") <> true.
Proof.
  split; vm_compute; discriminate.
Qed.

(** ** The assembler *)

Lemma append_assoc (a b c : string) : (a ++ b) ++ c = a ++ b ++ c.
Proof.
  induction a as [|x a IH]; simpl; [reflexivity | now rewrite IH].
Qed.

Lemma append_empty_r (a : string) : a ++ "" = a.
Proof.
  induction a as [|x a IH]; simpl; [reflexivity | now rewrite IH].
Qed.

Lemma insertRuntime_loop_filter (source : string) (fns : list (string * string)) :
  forall result,
    Assembler.insertRuntime_loop source fns result =
    result ++ definitions_of (filter (fun entry => Str.includes source (fst entry)) fns).
Proof.
  induction fns as [|[functionName text] rest IH]; intros result; simpl.
  - now rewrite append_empty_r.
  - rewrite IH. destruct (Str.includes source functionName); simpl.
    + now rewrite !append_assoc.
    + reflexivity.
Qed.

Lemma insertRuntime_referenced (source : string) :
  Assembler.insertRuntime source =
  Assembler.baseRuntime ++ definitions_of (referenced source) ++ "return " ++ source.
Proof.
  unfold Assembler.insertRuntime, referenced.
  rewrite insertRuntime_loop_filter. apply append_assoc.
Qed.

(** [includes] is occurrence as a contiguous substring. *)
Lemma prefix_append (t s : string) :
  prefix t s = true <-> exists b, s = t ++ b.
Proof.
  revert s. induction t as [|c t IH]; intros s; simpl.
  - split; [intros _; exists s; reflexivity | intros _; destruct s; reflexivity].
  - destruct s as [|d s]; simpl.
    + split; [discriminate | intros [b H]; discriminate H].
    + destruct (ascii_dec c d) as [E|E].
      * subst d. rewrite IH. split; intros [b H]; exists b.
        -- now rewrite H.
        -- now injection H.
      * split; [discriminate|]. intros [b H]. injection H as H1 H2. congruence.
Qed.

Lemma includes_occurs (s t : string) :
  Str.includes s t = true <-> exists a b, s = a ++ t ++ b.
Proof.
  induction s as [|c s IH].
  - cbn [Str.includes]. rewrite orb_false_r, prefix_append. split.
    + intros [b H]. exists "", b. exact H.
    + intros [a [b H]]. destruct a as [|x a]; [exists b; exact H | discriminate H].
  - cbn [Str.includes]. rewrite orb_true_iff, prefix_append, IH. split.
    + intros [[b H]|[a [b H]]].
      * exists "", b. exact H.
      * exists (String c a), b. simpl. now rewrite H.
    + intros [a [b H]]. destruct a as [|x a].
      * left. exists b. exact H.
      * right. simpl in H. injection H as _ H. exists a, b. exact H.
Qed.

(** When, of all the keys, only listGet and mod occur in the source, the
    selection is these two entries. *)
Lemma referenced_listGet_mod (source : string) :
  (forall name, In name (map fst Assembler.runtimeFunctions) ->
     Str.includes source name = (String.eqb name "listGet" || String.eqb name "mod")) ->
  referenced source = [("listGet", Assembler.text_listGet); ("mod", Assembler.text_mod)].
Proof.
  intros H. unfold referenced.
  rewrite (filter_ext_in _
             (fun entry => String.eqb (fst entry) "listGet" || String.eqb (fst entry) "mod")).
  - vm_compute. reflexivity.
  - intros entry Hin. apply H. apply in_map. exact Hin.
Qed.

(** C2, as the code has it.  The always-included base is made of three
    definitions: isWhiteSpace, compareEqual and listIndex.  For every source
    text the assembled unit is this base, then the text (closed by a semicolon)
    of exactly the entries of runtimeFunctions whose key occurs in the source,
    in table order, then [return] and the source.  A source in which, of all
    keys, only listGet and mod occur is assembled from the base and these two
    definitions; the unit of such a script does not contain the definition of
    randomInt.  "Occurs" is occurrence as a contiguous substring. *)
Theorem insertRuntime_base_and_referenced :
  Assembler.baseRuntime =
    Assembler.base_isWhiteSpace ++ Assembler.base_compareEqual ++ Assembler.base_listIndex /\
  (forall source,
     Assembler.insertRuntime source =
     Assembler.baseRuntime ++ definitions_of (referenced source) ++ "return " ++ source) /\
  (forall source name text,
     In (name, text) (referenced source) <->
     In (name, text) Assembler.runtimeFunctions /\ Str.includes source name = true) /\
  (forall source,
     (forall name, In name (map fst Assembler.runtimeFunctions) ->
        Str.includes source name = (String.eqb name "listGet" || String.eqb name "mod")) ->
     Assembler.insertRuntime source =
     Assembler.baseRuntime ++ Assembler.text_listGet ++ ";" ++ Assembler.text_mod ++ ";" ++
     "return " ++ source) /\
  Str.includes (Assembler.insertRuntime "mod(listGet(a, 1), 2)") Assembler.text_randomInt = false /\
  (forall s t, Str.includes s t = true <-> exists a b, s = a ++ t ++ b).
Proof.
  split; [reflexivity|].
  split; [exact insertRuntime_referenced|].
  split; [|split; [|split; [|exact includes_occurs]]].
  - intros source name text. unfold referenced. rewrite filter_In. reflexivity.
  - intros source H.
    rewrite insertRuntime_referenced, (referenced_listGet_mod source H).
    unfold definitions_of, fold_right, snd. rewrite !append_assoc. reflexivity.
  - vm_compute. reflexivity.
Qed.

(** The hypothesis of the fourth part holds of a script that calls mod and
    listGet. *)
Lemma insertRuntime_mod_listGet_witness :
  Assembler.insertRuntime "mod(listGet(a, 1), 2)" =
  Assembler.baseRuntime ++ Assembler.text_listGet ++ ";" ++ Assembler.text_mod ++ ";" ++
  "return " ++ "mod(listGet(a, 1), 2)".
Proof.
  apply (proj1 (proj2 (proj2 (proj2 insertRuntime_base_and_referenced)))).
  intros name H. simpl in H.
  repeat (destruct H as [H|H]; [rewrite <- H; vm_compute; reflexivity|]).
  destruct H.
Defined.

(** C2 as the specification states it fails: with isWhiteSpace and
    compareEqual as the whole base, the unit of a script that references
    nothing would not define listIndex; the assembled unit does. *)
Lemma insertRuntime_listIndex_counterexample :
  Str.includes "0" "listIndex" = false /\
  Str.includes (Assembler.insertRuntime "0") Assembler.base_listIndex = true /\
  Str.includes (unit_as_specified "0") Assembler.base_listIndex = false /\
  Assembler.insertRuntime "0" <> unit_as_specified "0".
Proof.
  repeat split; try (vm_compute; reflexivity).
  intros E. apply (f_equal (fun s => Str.includes s Assembler.base_listIndex)) in E.
  vm_compute in E. discriminate E.
Qed.

(** ** Waiting for a promise *)

Import Suspension.

(** C3.  A script that awaits a promise which rejects: the first step leaves
    the thread in PROMISE_WAIT, suspended; the rejection is handled by the
    catch handler, which puts the thread back to RUNNING and logs one warning
    carrying the error; the next resumption, whatever else happened to the
    state in between, returns undefined as the awaited value; it does not
    throw. *)
Theorem waitPromise_rejection_resumes_undefined (w : World) (error : Value) :
  exists f,
    fst (waitPromise w) = Yield f /\
    let w1 := snd (waitPromise w) in
    status w1 (thread w) = STATUS_PROMISE_WAIT /\
    let f2 := fst (settle (Rejected error) f w1) in
    let w2 := snd (settle (Rejected error) f w1) in
    status w2 (thread w) = STATUS_RUNNING /\
    warnings w2 = (warnings w ++ [("Promise rejected in compiled script:", error)])%list /\
    forall w3, waitPromise_next f2 w3 = (Return VUndefined, w3).
Proof.
  eexists. split; [reflexivity|].
  cbv zeta. split.
  - unfold waitPromise, bind, gets, ret. simpl. now rewrite Nat.eqb_refl.
  - split; [|split].
    + unfold waitPromise, settle, onRejected, bind, gets, ret. simpl.
      now rewrite Nat.eqb_refl.
    + reflexivity.
    + intros w3. reflexivity.
Qed.

(** For comparison, a promise that is fulfilled hands its value to the next
    resumption. *)
Lemma waitPromise_fulfilment_resumes_value (w : World) (value : Value) :
  exists f,
    fst (waitPromise w) = Yield f /\
    let w1 := snd (waitPromise w) in
    let f2 := fst (settle (Fulfilled value) f w1) in
    let w2 := snd (settle (Fulfilled value) f w1) in
    status w2 (thread w) = STATUS_RUNNING /\
    warnings w2 = warnings w /\
    forall w3, waitPromise_next f2 w3 = (Return value, w3).
Proof.
  eexists. split; [reflexivity|].
  cbv zeta. split; [|split].
  - unfold waitPromise, settle, onFulfilled, bind, gets, ret. simpl.
    now rewrite Nat.eqb_refl.
  - reflexivity.
  - intros w3. reflexivity.
Qed.

(** ** The stuck counter *)

Lemma isStuck_below_100 (w : World) :
  stuckCounter w + 1 <> 100 ->
  isStuck w =
  (false, mkWorld (thread w) (status w) (threads w) (isWaitingThread w)
                  (timeElapsed w) (timerReads w) (stuckCounter w + 1) (warnings w)).
Proof.
  intros H. unfold isStuck, bind, gets, set_stuckCounter, modify, ret. simpl.
  destruct (Z.eqb_spec (stuckCounter w + 1) 100); [contradiction | reflexivity].
Qed.

Lemma isStuck_at_100 (w : World) :
  stuckCounter w + 1 = 100 ->
  isStuck w =
  (Num.gtb (timeElapsed w (timerReads w)) (ofZ 500),
   mkWorld (thread w) (status w) (threads w) (isWaitingThread w)
           (timeElapsed w) (S (timerReads w)) 0 (warnings w)).
Proof.
  intros H. unfold isStuck, bind, gets, set_stuckCounter, modify, ret, read_timer. simpl.
  rewrite H. reflexivity.
Qed.

(** Below the hundredth call nothing happens but the count. *)
Lemma isStuck_calls_counting (n : nat) :
  forall w,
    0 <= stuckCounter w ->
    stuckCounter w + Z.of_nat n < 100 ->
    isStuck_calls n w =
    (repeat false n,
     mkWorld (thread w) (status w) (threads w) (isWaitingThread w)
             (timeElapsed w) (timerReads w) (stuckCounter w + Z.of_nat n) (warnings w)).
Proof.
  induction n as [|n IH]; intros w H0 H.
  - simpl. unfold ret. rewrite Z.add_0_r. destruct w; reflexivity.
  - cbn [isStuck_calls]. unfold bind at 1.
    rewrite isStuck_below_100 by lia.
    unfold bind at 1. rewrite IH by (simpl; lia).
    unfold ret. cbn [thread status threads isWaitingThread timeElapsed timerReads
                     stuckCounter warnings].
    replace (stuckCounter w + Z.of_nat (S n)) with (stuckCounter w + 1 + Z.of_nat n) by lia.
    reflexivity.
Qed.

Lemma gtb_ofZ (a b : Z) : Num.gtb (ofZ a) (ofZ b) = (b <? a).
Proof.
  unfold Num.gtb, Num.ltb, ofZ, Qltb, Qle_bool. simpl.
  rewrite !Z.mul_1_r. rewrite Z.ltb_antisym. reflexivity.
Qed.

(** C8.  From a state in which the counter has just been reset (or has its
    initial value), 99 calls of isStuck in a row all return false and none of
    them reads the timer; the 100th call reads it once, returns whether the
    reading is greater than 500 (for a reading of [ms] milliseconds: true if
    and only if [500 < ms]), and leaves the counter reset whatever it
    returns. *)
Theorem isStuck_hundredth_call (w : World) :
  stuckCounter w = 0 ->
  let w99 := snd (isStuck_calls 99 w) in
  fst (isStuck_calls 99 w) = repeat false 99 /\
  timerReads w99 = timerReads w /\
  fst (isStuck w99) = Num.gtb (timeElapsed w (timerReads w)) (ofZ 500) /\
  (forall ms, timeElapsed w (timerReads w) = ofZ ms ->
     (fst (isStuck w99) = true <-> 500 < ms)) /\
  stuckCounter (snd (isStuck w99)) = 0 /\
  timerReads (snd (isStuck w99)) = S (timerReads w).
Proof.
  intros H. cbv zeta.
  rewrite (isStuck_calls_counting 99 w) by (rewrite H; simpl; lia).
  cbn [fst snd].
  rewrite isStuck_at_100 by (simpl; rewrite H; reflexivity).
  cbn [fst snd timeElapsed timerReads stuckCounter].
  repeat split; try reflexivity.
  - intros E. rewrite H0, gtb_ofZ in E. now apply Z.ltb_lt.
  - intros E. rewrite H0, gtb_ofZ. now apply Z.ltb_lt.
Qed.

(** On the sample state the timer reads 501 ms, so the 100th call returns
    true. *)
Lemma isStuck_hundredth_call_witness :
  fst (isStuck (snd (isStuck_calls 99 sample_world))) = true.
Proof.
  apply (proj2 (proj1 (proj2 (proj2 (proj2
           (isStuck_hundredth_call sample_world eq_refl)))) 501 eq_refl)).
  lia.
Defined.

(** ** Waiting for threads *)

Lemma indexOf_from_absent (a : list ThreadId) (t : ThreadId) :
  ~ In t a -> forall i, indexOf_from a t i = -1.
Proof.
  induction a as [|x a IH]; intros H i; simpl; [reflexivity|].
  destruct (Nat.eqb_spec x t) as [E|E].
  - exfalso. apply H. left. exact E.
  - apply IH. intros Hin. apply H. right. exact Hin.
Qed.

Lemma indexOf_from_present (a : list ThreadId) (t : ThreadId) :
  In t a -> forall i, 0 <= i -> 0 <= indexOf_from a t i.
Proof.
  induction a as [|x a IH]; intros H i Hi; simpl; [destruct H|].
  destruct (Nat.eqb_spec x t) as [E|E]; [exact Hi|].
  destruct H as [H|H]; [contradiction|].
  apply IH; [exact H | lia].
Qed.

(** Whether a thread of the list is still active, as the first loop of
    waitThreads finds out. *)
Lemma anyRunning_false (ts active : list ThreadId) :
  (forall t, In t ts -> ~ In t active) ->
  existsb (fun t => negb (indexOf active t =? -1)) ts = false.
Proof.
  intros H. induction ts as [|t ts IH]; simpl; [reflexivity|].
  unfold indexOf at 1. rewrite indexOf_from_absent by (apply H; left; reflexivity).
  simpl. apply IH. intros t' Ht'. apply H. right. exact Ht'.
Qed.

Lemma anyRunning_true (ts active : list ThreadId) (t : ThreadId) :
  In t ts -> In t active ->
  existsb (fun t => negb (indexOf active t =? -1)) ts = true.
Proof.
  intros Hts Hact. apply existsb_exists. exists t. split; [exact Hts|].
  pose proof (indexOf_from_present active t Hact 0 (Z.le_refl 0)) as H.
  unfold indexOf. destruct (Z.eqb_spec (indexOf_from active t 0) (-1)); [lia | reflexivity].
Qed.

(** As long as one of the threads is active, the helper suspends. *)
Lemma waitThreads_suspends (ts : list ThreadId) (w : World) (t : ThreadId) :
  In t ts -> In t (threads w) ->
  exists f w', waitThreads ts w = (Yield f, w').
Proof.
  intros Hts Hact.
  unfold waitThreads, waitThreads_loop, bind, gets, ret. cbn [wt_threads wt_thread].
  rewrite (anyRunning_true ts (threads w) t Hts Hact). cbn [negb].
  destruct (forallb (isWaitingThread w) ts); simpl; eexists; eexists; reflexivity.
Qed.

(** C9.  When no thread of the list is in the scheduler's list of active
    threads at the first check, the first step of waitThreads returns: run to
    its end, whatever the rest of the engine would do after a yield, the
    generator has been suspended zero times, and the state - the status of the
    current thread included - is as it was. *)
Theorem waitThreads_returns_without_yield (ts : list ThreadId) (w : World) :
  (forall t, In t ts -> ~ In t (threads w)) ->
  waitThreads ts w = (Return tt, w) /\
  forall env fuel,
    drive waitThreads_next env fuel 0 (fst (waitThreads ts w)) (snd (waitThreads ts w)) =
    (Some (inl tt), 0%nat, w).
Proof.
  intros H.
  assert (E : waitThreads ts w = (Return tt, w)).
  { unfold waitThreads, waitThreads_loop, bind, gets, ret. cbn [wt_threads wt_thread].
    rewrite (anyRunning_false ts (threads w) H). reflexivity. }
  split; [exact E|].
  intros env fuel. rewrite E. destruct fuel; reflexivity.
Qed.

(** Threads 3 and 4 are not among the active threads of the sample state. *)
Lemma waitThreads_returns_without_yield_witness :
  waitThreads [3%nat; 4%nat] sample_world = (Return tt, sample_world).
Proof.
  apply (proj1 (waitThreads_returns_without_yield [3%nat; 4%nat] sample_world
    ltac:(simpl; intros t [E|[E|[]]] [E'|[E'|[]]]; subst t; discriminate E'))).
Defined.

(** ** EventEmitter *)

Lemma indexOf_from_entries (a : list Emitter.JsVal) (s : string) :
  Forall (fun x => exists e l, x = Emitter.JEntry e l) a ->
  forall i, Emitter.indexOf_from a s i = -1.
Proof.
  induction 1 as [|x a [e [l Hx]] _ IH]; intros i; simpl; [reflexivity|].
  subst x. simpl. apply IH.
Qed.

Lemma registered_entries (registrations : list (string * nat)) :
  Forall (fun x => exists e l, x = Emitter.JEntry e l)
         (Emitter.listerMap (registered registrations)).
Proof.
  unfold registered.
  assert (G : forall this,
             Forall (fun x => exists e l, x = Emitter.JEntry e l) (Emitter.listerMap this) ->
             Forall (fun x => exists e l, x = Emitter.JEntry e l)
                    (Emitter.listerMap
                       (fold_left (fun this r => snd (Emitter.on (fst r) (snd r) this))
                                  registrations this))).
  { induction registrations as [|r rs IH]; intros this H; simpl; [exact H|].
    apply IH. simpl. apply Forall_app. split; [exact H|].
    constructor; [|constructor]. eexists; eexists; reflexivity. }
  apply G. constructor.
Qed.

(** C10.  Whatever the emitter holds, [emit] throws a TypeError and calls no
    listener: the value it tries to call is the [listener] property of the
    number that indexOf returns.  After any series of registrations with [on]
    that number is -1, since the array holds {eventName, listener} records and
    the event name is a string; and emit throws right after a listener has been
    registered for the very event that is emitted. *)
Theorem emit_throws_TypeError (this : Emitter.EventEmitter) (eventName : string)
  (param : list Emitter.JsVal) :
  Emitter.emit eventName param this = (inr "TypeError", this) /\
  Emitter.calls (snd (Emitter.emit eventName param this)) = Emitter.calls this /\
  (forall registrations,
     Emitter.indexOf (Emitter.listerMap (registered registrations)) eventName = -1) /\
  (forall listener,
     let this' := snd (Emitter.on eventName listener this) in
     Emitter.emit eventName param this' = (inr "TypeError", this') /\
     Emitter.calls this' = Emitter.calls this).
Proof.
  split; [reflexivity|]. split; [reflexivity|]. split.
  - intros registrations. unfold Emitter.indexOf.
    apply indexOf_from_entries, registered_entries.
  - intros listener this'. split; reflexivity.
Qed.

(** ** List contents *)

Lemma listContents_loop_false (items : list Value) :
  Forall (fun x => String.length (ToString x) = 1%nat) items ->
  Runtime.listContents_loop items = false.
Proof.
  induction 1 as [|x items Hx _ IH]; simpl; [reflexivity|].
  rewrite Hx. simpl. exact IH.
Qed.

Lemma listContents_loop_true (items : list Value) :
  Exists (fun x => String.length (ToString x) <> 1%nat) items ->
  Runtime.listContents_loop items = true.
Proof.
  induction 1 as [x items Hx|x items _ IH]; simpl.
  - destruct (Nat.eqb_spec (String.length (ToString x)) 1); [contradiction | reflexivity].
  - destruct (negb _); [reflexivity | exact IH].
Qed.

(** An element whose string form has one character is neither null nor
    undefined, so [join] puts that very string. *)
Lemma join_item_single (x : Value) :
  String.length (ToString x) = 1%nat -> join_item x = ToString x.
Proof.
  destruct x; simpl; try reflexivity; discriminate.
Qed.

(** C6.  listContents joins the elements with no separator when the string form
    of every element has exactly one character (the result is then the
    concatenation of these characters), and with a single space as soon as one
    element's string form has another length.  [1,2,3] gives "123" and
    [1,22,3] gives "1 22 3". *)
Theorem listContents_separator (list : Runtime.ListVariable) :
  (Forall (fun x => String.length (ToString x) = 1%nat) (Runtime.value list) ->
     Runtime.listContents list = array_join (Runtime.value list) "" /\
     Runtime.listContents list = Str.join "" (map ToString (Runtime.value list))) /\
  (Exists (fun x => String.length (ToString x) <> 1%nat) (Runtime.value list) ->
     Runtime.listContents list = array_join (Runtime.value list) " ") /\
  Runtime.listContents
    (Runtime.mkList [VNumber (ofZ 1); VNumber (ofZ 2); VNumber (ofZ 3)] true) = "123" /\
  Runtime.listContents
    (Runtime.mkList [VNumber (ofZ 1); VNumber (ofZ 22); VNumber (ofZ 3)] true) = "1 22 3".
Proof.
  split; [|split; [|split; reflexivity]].
  - intros H. unfold Runtime.listContents. rewrite (listContents_loop_false _ H).
    split; [reflexivity|]. unfold array_join. f_equal.
    induction H as [|x items Hx _ IH]; simpl; [reflexivity|].
    rewrite (join_item_single x Hx), IH. reflexivity.
  - intros H. unfold Runtime.listContents. rewrite (listContents_loop_true _ H).
    reflexivity.
Qed.

(** Both cases on the lists of the specification. *)
Lemma listContents_separator_witness :
  Runtime.listContents
    (Runtime.mkList [VNumber (ofZ 1); VNumber (ofZ 2); VNumber (ofZ 3)] true) =
    array_join [VNumber (ofZ 1); VNumber (ofZ 2); VNumber (ofZ 3)] "" /\
  Runtime.listContents
    (Runtime.mkList [VNumber (ofZ 1); VNumber (ofZ 22); VNumber (ofZ 3)] true) =
    array_join [VNumber (ofZ 1); VNumber (ofZ 22); VNumber (ofZ 3)] " ".
Proof.
  split.
  - apply (proj1 (listContents_separator
             (Runtime.mkList [VNumber (ofZ 1); VNumber (ofZ 2); VNumber (ofZ 3)] true))).
    simpl. repeat constructor.
  - apply (proj1 (proj2 (listContents_separator
             (Runtime.mkList [VNumber (ofZ 1); VNumber (ofZ 22); VNumber (ofZ 3)] true)))).
    simpl. apply Exists_cons_tl. apply Exists_cons_hd. vm_compute. discriminate.
Defined.

(** ** List indices and list mutation *)

Section ListPrimitives.

(** What [Math.random()] returns, should "random" or "*" be the index. *)
Variable random : number.

Lemma wrap32_small (z : Z) :
  - 2147483648 <= z < 2147483648 -> wrap32 z = z.
Proof.
  intros H. unfold wrap32.
  destruct (Z_lt_le_dec z 0) as [Hn|Hp].
  - replace (z mod 4294967296) with (z + 4294967296).
    + destruct (Z.leb_spec 2147483648 (z + 4294967296)); lia.
    + rewrite <- (Z_mod_plus_full z 1 4294967296).
      rewrite Z.mod_small; lia.
  - rewrite Z.mod_small by lia.
    destruct (Z.leb_spec 2147483648 z); lia.
Qed.

(** listIndex on an index that is not treated by name. *)
Lemma listIndex_not_symbolic (index : Value) (length : Z) :
  symbolic index = false ->
  Runtime.listIndex random index length =
  Runtime.listIndex_number (index_number index) length.
Proof.
  unfold symbolic, Runtime.listIndex, index_number.
  destruct index as [| |b|n|s]; try reflexivity.
  intros H. apply orb_false_elim in H as [H H3]. apply orb_false_elim in H as [H1 H2].
  rewrite H1, H2, H3. reflexivity.
Qed.

Lemma listIndex_number_invalid (n : number) (length : Z) :
  Runtime.listIndex_number n length = -1 <-> (toInt32 n < 1 \/ length < toInt32 n).
Proof.
  unfold Runtime.listIndex_number.
  destruct (Z.ltb_spec (toInt32 n) 1); destruct (Z.gtb_spec (toInt32 n) length);
    simpl; split; intros; lia.
Qed.

Lemma listIndex_length_0 (index : Value) :
  Runtime.listIndex random index 0 = -1.
Proof.
  assert (N : forall n, Runtime.listIndex_number n 0 = -1).
  { intros n. apply listIndex_number_invalid. lia. }
  unfold Runtime.listIndex. destruct index as [| |b|n|s]; try apply N; try reflexivity.
  simpl. destruct (String.eqb s "last"); [reflexivity|].
  destruct (String.eqb s "random" || String.eqb s "*"); [reflexivity | apply N].
Qed.

(** C4, as the code has it.  With length 0 every index gives -1.  An index
    other than "last", "random" and "*" is made a number ([+index || 0] if it
    is not one) and truncated to a 32-bit integer ([index | 0]); listIndex
    returns -1 exactly when that integer is below 1 or above length, and the
    integer minus one otherwise.  So a number whose integer part fits 32 bits
    and lies outside [1, length] gives -1, while a fractional index such as
    1.5 counts as its integer part.  "last" with a positive length gives
    length - 1. *)
Theorem listIndex_bounds (length : Z) :
  (forall index, length = 0 -> Runtime.listIndex random index length = -1) /\
  (forall index, symbolic index = false ->
     let i := toInt32 (index_number index) in
     (i < 1 \/ length < i -> Runtime.listIndex random index length = -1) /\
     (1 <= i <= length -> Runtime.listIndex random index length = i - 1)) /\
  (forall q, - 2147483648 <= Qtrunc q < 2147483648 ->
     Qtrunc q < 1 \/ length < Qtrunc q ->
     Runtime.listIndex random (VNumber (Fin q)) length = -1) /\
  (0 < length -> Runtime.listIndex random (VString "last") length = length - 1).
Proof.
  split; [|split; [|split]].
  - intros index ->. apply listIndex_length_0.
  - intros index H i. rewrite (listIndex_not_symbolic index length H).
    split.
    + intros Hi. apply listIndex_number_invalid. exact Hi.
    + intros Hi. unfold Runtime.listIndex_number. fold i.
      destruct (Z.ltb_spec i 1); destruct (Z.gtb_spec i length); simpl; lia.
  - intros q Hq Hout. simpl. apply listIndex_number_invalid.
    simpl. rewrite (wrap32_small _ Hq). exact Hout.
  - intros H. simpl. destruct (Z.gtb_spec length 0); lia.
Qed.

(** Deleting "all" puts a new empty array in place of the items; the flag is
    not written. *)
Lemma listDelete_all (list : Runtime.ListVariable) :
  Runtime.listDelete random list (VString "all") =
  Runtime.mkList [] (Runtime._monitorUpToDate list).
Proof.
  reflexivity.
Qed.

(** C7, as the code has it.  listReplace, listInsert and listDelete return the
    list as it was - items and flag - when listIndex finds the index invalid
    (for listInsert against the length plus one; for listDelete with an index
    other than "all"); so they do for a number whose 32-bit integer part is
    outside the range.  When listIndex finds the index valid they replace,
    insert or remove the item and set _monitorUpToDate to false. *)
Theorem list_mutators_noop_and_stale (list : Runtime.ListVariable)
  (idx value : Value) :
  let len := Z.of_nat (length (Runtime.value list)) in
  (Runtime.listIndex random idx len = -1 ->
     Runtime.listReplace random list idx value = list) /\
  (Runtime.listIndex random idx (len + 1) = -1 ->
     Runtime.listInsert random list idx value = list) /\
  (strictEq idx (VString "all") = false -> Runtime.listIndex random idx len = -1 ->
     Runtime.listDelete random list idx = list) /\
  (forall n, toInt32 n < 1 \/ len < toInt32 n ->
     Runtime.listReplace random list (VNumber n) value = list /\
     Runtime.listDelete random list (VNumber n) = list) /\
  (forall n, toInt32 n < 1 \/ len + 1 < toInt32 n ->
     Runtime.listInsert random list (VNumber n) value = list) /\
  (Runtime.listIndex random idx len <> -1 ->
     Runtime.listReplace random list idx value =
     Runtime.mkList
       (array_set (Runtime.value list) (Runtime.listIndex random idx len) value) false) /\
  (Runtime.listIndex random idx (len + 1) <> -1 ->
     Runtime.listInsert random list idx value =
     Runtime.mkList
       (splice_insert (Runtime.value list) (Runtime.listIndex random idx (len + 1)) value)
       false) /\
  (strictEq idx (VString "all") = false -> Runtime.listIndex random idx len <> -1 ->
     Runtime.listDelete random list idx =
     Runtime.mkList
       (splice_delete (Runtime.value list) (Runtime.listIndex random idx len)) false).
Proof.
  intros len.
  assert (Inv : forall n bound, toInt32 n < 1 \/ bound < toInt32 n ->
                  Runtime.listIndex random (VNumber n) bound = -1).
  { intros n bound H. simpl. apply listIndex_number_invalid. exact H. }
  repeat match goal with |- _ /\ _ => split end.
  - intros H. unfold Runtime.listReplace. fold len. rewrite H. reflexivity.
  - intros H. unfold Runtime.listInsert. fold len. rewrite H. reflexivity.
  - intros Hall H. unfold Runtime.listDelete. fold len. rewrite Hall, H. reflexivity.
  - intros n H. split.
    + unfold Runtime.listReplace. fold len. rewrite (Inv n len H). reflexivity.
    + unfold Runtime.listDelete. fold len. rewrite (Inv n len H). reflexivity.
  - intros n H. unfold Runtime.listInsert. fold len. rewrite (Inv n (len + 1) H).
    reflexivity.
  - intros H. unfold Runtime.listReplace. fold len.
    destruct (Z.eqb_spec (Runtime.listIndex random idx len) (-1)); [contradiction|].
    reflexivity.
  - intros H. unfold Runtime.listInsert. fold len.
    destruct (Z.eqb_spec (Runtime.listIndex random idx (len + 1)) (-1)); [contradiction|].
    reflexivity.
  - intros Hall H. unfold Runtime.listDelete. fold len. rewrite Hall.
    destruct (Z.eqb_spec (Runtime.listIndex random idx len) (-1)); [contradiction|].
    reflexivity.
Qed.

End ListPrimitives.

(** Index 7 on a list of three items, the string "0", and "last". *)
Lemma listIndex_bounds_witness :
  Runtime.listIndex NaN (VNumber (ofZ 7)) 3 = -1 /\
  Runtime.listIndex NaN (VString "0") 3 = -1 /\
  Runtime.listIndex NaN (VNumber (ofZ 2)) 3 = 1 /\
  Runtime.listIndex NaN (VString "last") 3 = 2 /\
  Runtime.listIndex NaN (VString "last") 0 = -1.
Proof.
  pose proof (listIndex_bounds NaN 3) as [_ [H2 [H3 H4]]].
  split; [|split; [|split; [|split]]].
  - apply (H3 (inject_Z 7)); vm_compute; intuition discriminate.
  - apply (proj1 (H2 (VString "0") eq_refl)). vm_compute. left. reflexivity.
  - apply (proj2 (H2 (VNumber (ofZ 2)) eq_refl)). vm_compute. split; discriminate.
  - apply H4. lia.
  - apply (proj1 (listIndex_bounds NaN 0) (VString "last") eq_refl).
Defined.

(** C4 as the specification states it fails: 1.5 lies outside [1, 1], yet
    listIndex(1.5, 1) is 0, the index of the first item, not -1. *)
Lemma listIndex_fraction_counterexample :
  (1 < 3 # 2)%Q /\
  Runtime.listIndex NaN (VNumber (Fin (3 # 2))) 1 = 0 /\
  Runtime.listIndex NaN (VNumber (Fin (3 # 2))) 1 <> -1.
Proof.
  split; [reflexivity|]. split; [reflexivity|]. vm_compute. discriminate.
Qed.

(** On the list [1, 2] with an up-to-date monitor: index 5 changes nothing;
    index 1 replaces, inserts or removes the first item and clears the flag. *)
Lemma list_mutators_noop_and_stale_witness :
  (Runtime.listReplace NaN (Runtime.mkList [VNumber (ofZ 1); VNumber (ofZ 2)] true)
     (VNumber (ofZ 5)) (VString "x") =
     Runtime.mkList [VNumber (ofZ 1); VNumber (ofZ 2)] true /\
   Runtime.listInsert NaN (Runtime.mkList [VNumber (ofZ 1); VNumber (ofZ 2)] true)
     (VNumber (ofZ 5)) (VString "x") =
     Runtime.mkList [VNumber (ofZ 1); VNumber (ofZ 2)] true /\
   Runtime.listDelete NaN (Runtime.mkList [VNumber (ofZ 1); VNumber (ofZ 2)] true)
     (VNumber (ofZ 5)) =
     Runtime.mkList [VNumber (ofZ 1); VNumber (ofZ 2)] true) /\
  (Runtime.listReplace NaN (Runtime.mkList [VNumber (ofZ 1); VNumber (ofZ 2)] true)
     (VNumber (ofZ 1)) (VString "x") =
     Runtime.mkList [VString "x"; VNumber (ofZ 2)] false /\
   Runtime.listInsert NaN (Runtime.mkList [VNumber (ofZ 1); VNumber (ofZ 2)] true)
     (VNumber (ofZ 1)) (VString "x") =
     Runtime.mkList [VString "x"; VNumber (ofZ 1); VNumber (ofZ 2)] false /\
   Runtime.listDelete NaN (Runtime.mkList [VNumber (ofZ 1); VNumber (ofZ 2)] true)
     (VNumber (ofZ 1)) =
     Runtime.mkList [VNumber (ofZ 2)] false).
Proof.
  pose proof (list_mutators_noop_and_stale NaN
                (Runtime.mkList [VNumber (ofZ 1); VNumber (ofZ 2)] true)
                (VNumber (ofZ 5)) (VString "x")) as [A1 [A2 [A3 _]]].
  pose proof (list_mutators_noop_and_stale NaN
                (Runtime.mkList [VNumber (ofZ 1); VNumber (ofZ 2)] true)
                (VNumber (ofZ 1)) (VString "x")) as [_ [_ [_ [_ [_ [B1 [B2 B3]]]]]]].
  split; [split; [|split] | split; [|split]].
  - apply A1. reflexivity.
  - apply A2. reflexivity.
  - apply A3; reflexivity.
  - apply B1. vm_compute. discriminate.
  - apply B2. vm_compute. discriminate.
  - apply B3; [reflexivity | vm_compute; discriminate].
Defined.

(** C7 as the specification states it fails: deleting "all" empties the list,
    a successful mutation, and the flag stays true. *)
Lemma listDelete_all_counterexample :
  Runtime.value
    (Runtime.listDelete NaN (Runtime.mkList [VNumber (ofZ 1)] true) (VString "all")) = [] /\
  Runtime.value
    (Runtime.listDelete NaN (Runtime.mkList [VNumber (ofZ 1)] true) (VString "all")) <>
    Runtime.value (Runtime.mkList [VNumber (ofZ 1)] true) /\
  Runtime._monitorUpToDate
    (Runtime.listDelete NaN (Runtime.mkList [VNumber (ofZ 1)] true) (VString "all")) = true.
Proof.
  split; [reflexivity|]. split; [discriminate | reflexivity].
Qed.

(** ** Modulo *)

Lemma Qltb_lt (a b : Q) : Qltb a b = true <-> (a < b)%Q.
Proof.
  unfold Qltb. rewrite negb_true_iff. split.
  - intros H. apply Qnot_le_lt. intros Hle. apply Qle_bool_iff in Hle. congruence.
  - intros H. destruct (Qle_bool b a) eqn:E; [|reflexivity].
    apply Qle_bool_iff in E. exfalso. exact (Qlt_not_le _ _ H E).
Qed.

(** Truncation and floor differ by one exactly below the truncation, that is on
    the negative numbers that are not integers. *)
Lemma Qtrunc_floor (x : Q) :
  Qtrunc x = if Qltb x (inject_Z (Qtrunc x)) then Qfloor x + 1 else Qfloor x.
Proof.
  destruct x as [n d]. unfold Qltb, Qle_bool, Qtrunc, Qfloor. simpl.
  set (D := Z.pos d). assert (HD : 0 < D) by (unfold D; lia).
  pose proof (Z.quot_rem' n D) as Hq.
  pose proof (Z.div_mod n D ltac:(lia)) as Hf.
  pose proof (Z.mod_pos_bound n D HD) as Hm.
  pose proof (Z.rem_bound_abs n D ltac:(lia)) as Hr.
  assert (Hs : (0 <= n -> 0 <= Z.rem n D) /\ (n <= 0 -> Z.rem n D <= 0)).
  { split; intros; [apply Z.rem_nonneg | apply Z.rem_nonpos]; lia. }
  rewrite Z.mul_1_r.
  destruct (Z.leb_spec (n ÷ D * D) n); simpl; nia.
Qed.

Lemma Qred_inject_Z (z : Z) : Qred (inject_Z z) = inject_Z z.
Proof.
  apply Qcanon.Qred_identity. simpl. apply Z.gcd_1_r.
Qed.

Lemma Qeq_bool_false (q : Q) : ~ (q == 0)%Q -> Qeq_bool q 0 = false.
Proof.
  intros H. destruct (Qeq_bool q 0) eqn:E; [|reflexivity].
  apply Qeq_bool_iff in E. contradiction.
Qed.

(** On finite operands with a divisor other than zero, mod is in exact
    arithmetic the remainder of the flooring division. *)
Lemma mod_floor (p q : Q) :
  ~ (q == 0)%Q ->
  Runtime.mod_ (Fin p) (Fin q) = fin (p - q * inject_Z (Qfloor (p / q))).
Proof.
  intros Hq. unfold Runtime.mod_, Num.rem, Num.div, Num.ltb, Num.add, fin.
  rewrite (Qeq_bool_false q Hq).
  set (t := Qtrunc (p / q)).
  assert (T : Qltb (Qred (Qred (p - q * inject_Z t) / q)) 0 = Qltb (p / q) (inject_Z t)).
  { destruct (Qltb (p / q) (inject_Z t)) eqn:E.
    - apply Qltb_lt. apply Qltb_lt in E. rewrite !Qred_correct.
      setoid_replace ((p - q * inject_Z t) / q)%Q with (p / q - inject_Z t)%Q
        by (field; exact Hq).
      lra.
    - destruct (Qltb (Qred (Qred (p - q * inject_Z t) / q)) 0) eqn:E'; [|reflexivity].
      apply Qltb_lt in E'. rewrite !Qred_correct in E'.
      setoid_replace ((p - q * inject_Z t) / q)%Q with (p / q - inject_Z t)%Q in E'
        by (field; exact Hq).
      assert (L : (p / q < inject_Z t)%Q) by lra.
      apply Qltb_lt in L. congruence. }
  rewrite T. pose proof (Qtrunc_floor (p / q)) as F. fold t in F.
  destruct (Qltb (p / q) (inject_Z t)).
  - f_equal. apply Qred_complete. rewrite Qred_correct, F, inject_Z_plus. ring.
  - rewrite F. reflexivity.
Qed.

(** On integers, in exact arithmetic, mod is the flooring modulo. *)
Lemma mod_integers (a b : Z) :
  b <> 0 -> Runtime.mod_ (ofZ a) (ofZ b) = ofZ (a mod b).
Proof.
  intros Hb. unfold ofZ. rewrite mod_floor.
  - rewrite <- Zdiv_Qdiv. unfold fin, ofZ. f_equal.
    rewrite <- (Qred_inject_Z (a mod b)). apply Qred_complete.
    rewrite Z.mod_eq by exact Hb.
    unfold Zminus. rewrite inject_Z_plus, inject_Z_opp, inject_Z_mult. ring.
  - intros E. apply Hb. unfold Qeq in E. simpl in E. lia.
Qed.

(** C5, as the code has it.  For integers [n] and [modulus] that numbers hold
    exactly (magnitude at most 2^53, where the remainder, the quotient's sign
    and the sum of the code are computed without rounding) and a modulus other
    than zero, mod(n, modulus) is the remainder of the flooring division,
    [n - modulus * floor(n / modulus)], which is the flooring modulo
    [n mod modulus] of the integers: it is zero or has the sign of the modulus,
    and it is smaller than the modulus in magnitude.  mod(-1, 4) is 3 and
    mod(5, -3) is -1, where the truncating remainder [%] gives -1 and 2. *)
Theorem mod_floored_on_safe_integers :
  (forall a b : Z, safe_integer a -> safe_integer b -> b <> 0 ->
     exists r : Z,
       Runtime.mod_ (ofZ a) (ofZ b) = ofZ r /\
       r = a - b * Qfloor (inject_Z a / inject_Z b) /\
       r = a mod b /\
       (0 < b -> 0 <= r < b) /\ (b < 0 -> b < r <= 0) /\
       safe_integer r) /\
  Runtime.mod_ (ofZ (-1)) (ofZ 4) = ofZ 3 /\
  Runtime.mod_ (ofZ 5) (ofZ (-3)) = ofZ (-1) /\
  Num.rem (ofZ (-1)) (ofZ 4) = ofZ (-1) /\
  Num.rem (ofZ 5) (ofZ (-3)) = ofZ 2.
Proof.
  split; [|repeat split; reflexivity].
  intros a b Sa Sb Hb. exists (a mod b).
  split; [apply mod_integers; exact Hb|].
  split; [rewrite <- Zdiv_Qdiv; apply Z.mod_eq; exact Hb|].
  split; [reflexivity|].
  assert (P : 0 < b -> 0 <= a mod b < b) by (intros; apply Z.mod_pos_bound; assumption).
  assert (N : b < 0 -> b < a mod b <= 0) by (intros; apply Z.mod_neg_bound; assumption).
  split; [exact P|]. split; [exact N|].
  unfold safe_integer in *. destruct (Z.lt_total b 0) as [L|[E|L]]; [|contradiction|].
  - specialize (N L). lia.
  - specialize (P L). lia.
Qed.

(** On -7 and 3. *)
Lemma mod_floored_on_safe_integers_witness :
  exists r : Z,
    Runtime.mod_ (ofZ (-7)) (ofZ 3) = ofZ r /\
    r = -7 - 3 * Qfloor (inject_Z (-7) / inject_Z 3) /\
    r = (-7) mod 3 /\
    (0 < 3 -> 0 <= r < 3) /\ (3 < 0 -> 3 < r <= 0) /\
    safe_integer r.
Proof.
  apply (proj1 mod_floored_on_safe_integers (-7) 3).
  - unfold safe_integer. lia.
  - unfold safe_integer. lia.
  - lia.
Defined.

(** C5 as the specification states it fails: with the positive modulus
    Infinity, mod(-1, Infinity) is -1, a negative result. *)
Lemma mod_infinite_modulus_counterexample :
  Runtime.mod_ (ofZ (-1)) PInf = ofZ (-1) /\
  Num.ltb (Fin 0) PInf = true /\
  Num.ltb (Runtime.mod_ (ofZ (-1)) PInf) (Fin 0) = true.
Proof.
  repeat split.
Qed.

(* ===================================================================== *)
(** * Further properties of the runtime *)
(* ===================================================================== *)

(** ** The three comparisons *)

Lemma compareEqual_cases (v1 v2 : Value) :
  Runtime.compareEqual v1 v2 =
  if compares_as_strings v1 v2
  then String.eqb (Str.toLowerCase (ToString v1)) (Str.toLowerCase (ToString v2))
  else Num.eqb (ToNumber v1) (ToNumber v2).
Proof.
  unfold Runtime.compareEqual, compares_as_strings. rewrite !isWhiteSpace_zero.
  destruct (Runtime.isWhiteSpace v1); simpl; [reflexivity|].
  destruct (Runtime.isWhiteSpace v2); simpl; [now rewrite orb_true_r | reflexivity].
Qed.

Lemma compareLessThan_cases (v1 v2 : Value) :
  Runtime.compareLessThan v1 v2 =
  if compares_as_strings v1 v2
  then String.ltb (Str.toLowerCase (ToString v1)) (Str.toLowerCase (ToString v2))
  else Num.ltb (ToNumber v1) (ToNumber v2).
Proof.
  unfold Runtime.compareLessThan, compares_as_strings. rewrite !isWhiteSpace_zero.
  destruct (Runtime.isWhiteSpace v1); simpl; [reflexivity|].
  destruct (Runtime.isWhiteSpace v2); simpl; [now rewrite orb_true_r | reflexivity].
Qed.

Lemma compareGreaterThan_cases (v1 v2 : Value) :
  Runtime.compareGreaterThan v1 v2 =
  if compares_as_strings v1 v2
  then String.ltb (Str.toLowerCase (ToString v2)) (Str.toLowerCase (ToString v1))
  else Num.gtb (ToNumber v1) (ToNumber v2).
Proof.
  unfold Runtime.compareGreaterThan, compares_as_strings. rewrite !isWhiteSpace_zero.
  destruct (Runtime.isWhiteSpace v1); simpl; [reflexivity|].
  destruct (Runtime.isWhiteSpace v2); simpl; [now rewrite orb_true_r | reflexivity].
Qed.

Lemma compares_as_strings_sym (v1 v2 : Value) :
  compares_as_strings v1 v2 = compares_as_strings v2 v1.
Proof.
  unfold compares_as_strings.
  destruct (Runtime.isWhiteSpace v1), (Runtime.isWhiteSpace v2),
    (isNaN (ToNumber v1)), (isNaN (ToNumber v2)); reflexivity.
Qed.

Lemma string_compare_refl (s : string) : String.compare s s = Eq.
Proof.
  pose proof (String.compare_antisym s s) as H.
  destruct (String.compare s s); [reflexivity | discriminate H | discriminate H].
Qed.

Lemma string_exactly_one (s1 s2 : string) :
  exactly_one (String.eqb s1 s2) (String.ltb s1 s2) (String.ltb s2 s1).
Proof.
  unfold exactly_one, String.ltb.
  rewrite (String.compare_antisym s2 s1).
  destruct (String.compare s1 s2) eqn:E; simpl.
  - apply String.compare_eq_iff in E. subst s2. rewrite String.eqb_refl. tauto.
  - destruct (String.eqb_spec s1 s2) as [->|_]; [|tauto].
    rewrite string_compare_refl in E. discriminate E.
  - destruct (String.eqb_spec s1 s2) as [->|_]; [|tauto].
    rewrite string_compare_refl in E. discriminate E.
Qed.

Lemma number_exactly_one (x y : number) :
  isNaN x = false -> isNaN y = false ->
  exactly_one (Num.eqb x y) (Num.ltb x y) (Num.gtb x y).
Proof.
  unfold exactly_one, Num.gtb.
  destruct x as [| | |p], y as [| | |q]; simpl; try discriminate; intros _ _; try tauto.
  unfold Qltb, Qle_bool, Qeq_bool.
  destruct (Z.eqb_spec (Qnum p * QDen q) (Qnum q * QDen p));
    destruct (Z.leb_spec (Qnum q * QDen p) (Qnum p * QDen q));
    destruct (Z.leb_spec (Qnum p * QDen q) (Qnum q * QDen p)); simpl; try tauto; lia.
Qed.

(** Of compareEqual, compareLessThan and compareGreaterThan exactly one answers
    true, whatever the two values are: they take the same path (numbers or
    lower-cased strings), and on either path the operands are equal, or one is
    below the other. *)
Theorem comparisons_exactly_one (v1 v2 : Value) :
  exactly_one (Runtime.compareEqual v1 v2)
              (Runtime.compareLessThan v1 v2)
              (Runtime.compareGreaterThan v1 v2).
Proof.
  rewrite compareEqual_cases, compareLessThan_cases, compareGreaterThan_cases.
  destruct (compares_as_strings v1 v2) eqn:E.
  - apply string_exactly_one.
  - unfold compares_as_strings in E.
    apply orb_false_elim in E as [E E2]. apply orb_false_elim in E as [_ E1].
    apply number_exactly_one; assumption.
Qed.

(** compareGreaterThan is compareLessThan with the operands exchanged, although
    the two test their operands for white space in a different order. *)
Theorem compareGreaterThan_is_swapped_compareLessThan (v1 v2 : Value) :
  Runtime.compareGreaterThan v1 v2 = Runtime.compareLessThan v2 v1.
Proof.
  rewrite compareGreaterThan_cases, compareLessThan_cases, (compares_as_strings_sym v2 v1).
  reflexivity.
Qed.

Lemma number_eqb_sym (x y : number) : Num.eqb x y = Num.eqb y x.
Proof.
  destruct x as [| | |p], y as [| | |q]; simpl; try reflexivity.
  unfold Qeq_bool.
  destruct (Z.eqb_spec (Qnum p * QDen q) (Qnum q * QDen p));
    destruct (Z.eqb_spec (Qnum q * QDen p) (Qnum p * QDen q)); congruence.
Qed.

Lemma number_eqb_refl (x : number) : isNaN x = false -> Num.eqb x x = true.
Proof.
  destruct x as [| | |p]; simpl; try discriminate; intros _; try reflexivity.
  apply Qeq_bool_iff. reflexivity.
Qed.

(** compareEqual is reflexive - also on NaN, which is equal to itself here
    because the string path compares "NaN" with "NaN" - and symmetric. *)
Theorem compareEqual_reflexive_symmetric :
  (forall v, Runtime.compareEqual v v = true) /\
  (forall v1 v2, Runtime.compareEqual v1 v2 = Runtime.compareEqual v2 v1).
Proof.
  split.
  - intros v. rewrite compareEqual_cases.
    destruct (compares_as_strings v v) eqn:E; [apply String.eqb_refl|].
    unfold compares_as_strings in E. apply orb_false_elim in E as [_ E].
    apply number_eqb_refl. exact E.
  - intros v1 v2. rewrite !compareEqual_cases, (compares_as_strings_sym v2 v1).
    destruct (compares_as_strings v1 v2); [apply String.eqb_sym | apply number_eqb_sym].
Qed.

(** ** toBoolean *)

Lemma lower_char_idempotent (c : ascii) : Str.lower_char (Str.lower_char c) = Str.lower_char c.
Proof.
  destruct c as [[] [] [] [] [] [] [] []]; reflexivity.
Qed.

Lemma lower_char_zero (c : ascii) : Str.lower_char c = "0"%char -> c = "0"%char.
Proof.
  destruct c as [[] [] [] [] [] [] [] []]; vm_compute; intros H; try discriminate H; reflexivity.
Qed.

Lemma toLowerCase_idempotent (s : string) :
  Str.toLowerCase (Str.toLowerCase s) = Str.toLowerCase s.
Proof.
  induction s as [|c s IH]; simpl; [reflexivity|].
  now rewrite lower_char_idempotent, IH.
Qed.

Lemma toLowerCase_empty (s : string) : String.eqb (Str.toLowerCase s) "" = String.eqb s "".
Proof.
  destruct s; reflexivity.
Qed.

Lemma toLowerCase_zero (s : string) : String.eqb (Str.toLowerCase s) "0" = String.eqb s "0".
Proof.
  destruct (String.eqb_spec s "0") as [->|N]; [reflexivity|].
  apply String.eqb_neq. intros H. apply N.
  destruct s as [|c [|d r]]; simpl in H; try discriminate H.
  injection H as H. now rewrite (lower_char_zero c H).
Qed.

(** toBoolean does not look at the case of the letters of a string, and it
    takes the string form of a boolean back to that boolean. *)
Theorem toBoolean_case_insensitive :
  (forall s, Runtime.toBoolean (VString (Str.toLowerCase s)) = Runtime.toBoolean (VString s)) /\
  (forall b, Runtime.toBoolean (VString (ToString (VBool b))) = b).
Proof.
  split.
  - intros s. unfold Runtime.toBoolean.
    now rewrite toLowerCase_empty, toLowerCase_zero, toLowerCase_idempotent.
  - intros []; reflexivity.
Qed.

(** ** Positions in a list *)


Lemma toInt32_ofZ (i : Z) : - 2147483648 <= i < 2147483648 -> toInt32 (ofZ i) = i.
Proof.
  intros H. unfold toInt32, ofZ, Qtrunc. simpl. rewrite Z.quot_1_r. now apply wrap32_small.
Qed.




(** ** Reading and changing lists *)

Lemma nth_set {A : Type} (a : list A) (v d : A) :
  forall k j, (k < length a)%nat ->
  nth j (firstn k a ++ v :: skipn (S k) a) d = if Nat.eqb j k then v else nth j a d.
Proof.
  induction a as [|x a IH]; intros k j H; simpl in H; [lia|].
  destruct k as [|k]; destruct j as [|j]; simpl; try reflexivity.
  apply IH. lia.
Qed.

Lemma length_set {A : Type} (a : list A) (v : A) :
  forall k, (k < length a)%nat -> length (firstn k a ++ v :: skipn (S k) a) = length a.
Proof.
  induction a as [|x a IH]; intros k H; simpl in H; [lia|].
  destruct k as [|k]; simpl; [reflexivity|]. f_equal. apply IH. lia.
Qed.

Lemma insert_then_delete {A : Type} (a : list A) (v : A) :
  forall k, (k <= length a)%nat ->
  (firstn k (firstn k a ++ v :: skipn k a) ++ skipn (S k) (firstn k a ++ v :: skipn k a))%list
  = a.
Proof.
  induction a as [|x a IH]; intros k H; simpl in H.
  - assert (k = 0)%nat by lia. subst. reflexivity.
  - destruct k as [|k]; simpl; [reflexivity|]. f_equal. apply IH. lia.
Qed.

Lemma length_insert {A : Type} (a : list A) (v : A) :
  forall k, length (firstn k a ++ v :: skipn k a) = S (length a).
Proof.
  intros k. rewrite <- (firstn_skipn k a) at 3. rewrite !length_app. simpl. lia.
Qed.

Lemma nth_insert {A : Type} (a : list A) (v d : A) :
  forall k, (k <= length a)%nat -> nth k (firstn k a ++ v :: skipn k a) d = v.
Proof.
  induction a as [|x a IH]; intros k H; simpl in H.
  - assert (k = 0)%nat by lia. subst. reflexivity.
  - destruct k as [|k]; simpl; [reflexivity|]. apply IH. lia.
Qed.

Lemma nth_last {A : Type} (a : list A) (d d' : A) :
  a <> [] -> nth (length a - 1) a d = last a d'.
Proof.
  induction a as [|x a IH]; intros H; [contradiction|].
  destruct a as [|y a]; [reflexivity|].
  specialize (IH ltac:(discriminate)).
  cbn [length Nat.sub] in IH. rewrite Nat.sub_0_r in IH.
  cbn [length Nat.sub].
  change (nth (S (length a)) (x :: y :: a) d) with (nth (length a) (y :: a) d).
  change (last (x :: y :: a) d') with (last (y :: a) d').
  exact IH.
Qed.

(** listIndex on an integer inside the list. *)
Lemma listIndex_integer (random : number) (i length : Z) :
  1 <= i <= length -> length < 2147483648 ->
  Runtime.listIndex random (VNumber (ofZ i)) length = i - 1.
Proof.
  intros Hi HL. simpl. unfold Runtime.listIndex_number. rewrite toInt32_ofZ by lia.
  destruct (Z.ltb_spec i 1); destruct (Z.gtb_spec i length); simpl; lia.
Qed.

Lemma listIndex_integer_outside (random : number) (i length : Z) :
  i < 1 \/ length < i -> - 2147483648 <= i < 2147483648 ->
  Runtime.listIndex random (VNumber (ofZ i)) length = -1.
Proof.
  intros Hi HL. simpl. apply listIndex_number_invalid. rewrite toInt32_ofZ by lia. exact Hi.
Qed.

Lemma array_get_nth (a : list Value) (k : Z) :
  0 <= k -> array_get a k = nth (Z.to_nat k) a VUndefined.
Proof.
  intros H. unfold array_get. destruct (Z.ltb_spec k 0); [lia | reflexivity].
Qed.

Lemma listGet_integer (random : number) (list : list Value) (i : Z) :
  Z.of_nat (length list) < 2147483648 -> 1 <= i <= Z.of_nat (length list) ->
  Runtime.listGet random list (VNumber (ofZ i)) = nth (Z.to_nat (i - 1)) list VUndefined.
Proof.
  intros HL Hi. unfold Runtime.listGet. rewrite listIndex_integer by lia.
  destruct (Z.eqb_spec (i - 1) (-1)); [lia|]. apply array_get_nth. lia.
Qed.

(** listGet with an integer index [i] is the i-th item of the list, counting
    from 1, when [1 <= i <= length], and the empty string for any other
    integer; with "last" it is the last item, and the empty string if the list
    is empty.  (Lengths are below 2^31.) *)
Theorem listGet_item (random : number) (list : list Value) (i : Z) :
  Z.of_nat (length list) < 2147483648 ->
  (1 <= i <= Z.of_nat (length list) ->
     Runtime.listGet random list (VNumber (ofZ i)) = nth (Z.to_nat (i - 1)) list VUndefined /\
     In (Runtime.listGet random list (VNumber (ofZ i))) list) /\
  (- 2147483648 <= i < 2147483648 -> i < 1 \/ Z.of_nat (length list) < i ->
     Runtime.listGet random list (VNumber (ofZ i)) = VString "") /\
  Runtime.listGet random list (VString "last") = last list (VString "").
Proof.
  intros HL. split; [|split].
  - intros Hi. rewrite (listGet_integer random list i HL Hi).
    split; [reflexivity|]. apply nth_In. lia.
  - intros Hr Hi. unfold Runtime.listGet.
    rewrite (listIndex_integer_outside random i _ Hi Hr). reflexivity.
  - unfold Runtime.listGet. simpl Runtime.listIndex.
    destruct list as [|x list]; [reflexivity|].
    destruct (Z.gtb_spec (Z.of_nat (length (x :: list))) 0) as [G|G];
      [|simpl length in G; lia].
    destruct (Z.eqb_spec (Z.of_nat (length (x :: list)) - 1) (-1)) as [E|E];
      [simpl length in E; lia|].
    rewrite array_get_nth by (simpl length; lia).
    replace (Z.to_nat (Z.of_nat (length (x :: list)) - 1)) with (length (x :: list) - 1)%nat
      by lia.
    apply nth_last. discriminate.
Qed.

Lemma listGet_item_witness :
  Runtime.listGet NaN [VString "a"; VString "b"; VString "c"] (VNumber (ofZ 2)) = VString "b" /\
  Runtime.listGet NaN [VString "a"; VString "b"; VString "c"] (VNumber (ofZ 4)) = VString "".
Proof.
  pose proof (listGet_item NaN [VString "a"; VString "b"; VString "c"] 2
                ltac:(simpl; lia)) as [A _].
  pose proof (listGet_item NaN [VString "a"; VString "b"; VString "c"] 4
                ltac:(simpl; lia)) as [_ [B _]].
  split.
  - apply (proj1 (A ltac:(simpl; lia))).
  - apply B; simpl; lia.
Defined.

(** After listReplace at a position inside the list, listGet at that position
    returns the new value, listGet at every other position returns what it
    returned before, and the list is as long as it was. *)
Theorem listReplace_then_listGet (random : number) (list : Runtime.ListVariable)
  (i j : Z) (v : Value) :
  Z.of_nat (length (Runtime.value list)) < 2147483648 ->
  1 <= i <= Z.of_nat (length (Runtime.value list)) ->
  let list' := Runtime.listReplace random list (VNumber (ofZ i)) v in
  length (Runtime.value list') = length (Runtime.value list) /\
  Runtime.listGet random (Runtime.value list') (VNumber (ofZ i)) = v /\
  (1 <= j <= Z.of_nat (length (Runtime.value list)) -> j <> i ->
     Runtime.listGet random (Runtime.value list') (VNumber (ofZ j)) =
     Runtime.listGet random (Runtime.value list) (VNumber (ofZ j))).
Proof.
  intros HL Hi list'.
  assert (E : Runtime.value list' =
              (firstn (Z.to_nat (i - 1)) (Runtime.value list) ++
               v :: skipn (S (Z.to_nat (i - 1))) (Runtime.value list))%list).
  { unfold list', Runtime.listReplace. rewrite listIndex_integer by lia.
    destruct (Z.eqb_spec (i - 1) (-1)); [lia|]. cbn [Runtime.value].
    unfold array_set. destruct (Z.ltb_spec (i - 1) 0); [lia|].
    destruct (Z.ltb_spec (i - 1) (Z.of_nat (length (Runtime.value list)))); [reflexivity | lia]. }
  assert (Len : length (Runtime.value list') = length (Runtime.value list)).
  { rewrite E. apply length_set. lia. }
  split; [exact Len|]. split.
  - rewrite listGet_integer by (rewrite Len; lia).
    rewrite E, nth_set by lia. now rewrite Nat.eqb_refl.
  - intros Hj Hne.
    rewrite !listGet_integer by (try rewrite Len; lia).
    rewrite E, nth_set by lia.
    destruct (Nat.eqb_spec (Z.to_nat (j - 1)) (Z.to_nat (i - 1))); [lia | reflexivity].
Qed.

Lemma listReplace_then_listGet_witness :
  Runtime.listGet NaN
    (Runtime.value
       (Runtime.listReplace NaN (Runtime.mkList [VString "a"; VString "b"] true)
          (VNumber (ofZ 2)) (VString "x")))
    (VNumber (ofZ 2)) = VString "x".
Proof.
  apply (proj1 (proj2 (listReplace_then_listGet NaN
           (Runtime.mkList [VString "a"; VString "b"] true) 2 1 (VString "x")
           ltac:(simpl; lia) ltac:(simpl; lia)))).
Defined.

(** listInsert at a position from 1 to length + 1 makes the list one longer and
    puts the value at that position; listDelete at the same position then
    gives back the items the list had. *)
Theorem listInsert_then_listDelete (random : number) (list : Runtime.ListVariable)
  (i : Z) (v : Value) :
  Z.of_nat (length (Runtime.value list)) + 1 < 2147483648 ->
  1 <= i <= Z.of_nat (length (Runtime.value list)) + 1 ->
  let list' := Runtime.listInsert random list (VNumber (ofZ i)) v in
  length (Runtime.value list') = S (length (Runtime.value list)) /\
  Runtime.listGet random (Runtime.value list') (VNumber (ofZ i)) = v /\
  Runtime.value (Runtime.listDelete random list' (VNumber (ofZ i))) = Runtime.value list.
Proof.
  intros HL Hi list'.
  assert (S0 : forall a : Datatypes.list Value, Z.of_nat (length a) >= i - 1 ->
             splice_start a (i - 1) = Z.to_nat (i - 1)).
  { intros a Ha. unfold splice_start. destruct (Z.ltb_spec (i - 1) 0); lia. }
  assert (E : Runtime.value list' =
              (firstn (Z.to_nat (i - 1)) (Runtime.value list) ++
               v :: skipn (Z.to_nat (i - 1)) (Runtime.value list))%list).
  { unfold list', Runtime.listInsert. rewrite listIndex_integer by lia.
    destruct (Z.eqb_spec (i - 1) (-1)); [lia|]. cbn [Runtime.value].
    unfold splice_insert. rewrite S0 by lia. reflexivity. }
  assert (Len : length (Runtime.value list') = S (length (Runtime.value list))).
  { rewrite E. apply length_insert. }
  split; [exact Len|]. split.
  - rewrite listGet_integer by (rewrite Len; lia).
    rewrite E. apply nth_insert. lia.
  - unfold Runtime.listDelete. cbn [strictEq].
    rewrite listIndex_integer by (rewrite Len; lia).
    destruct (Z.eqb_spec (i - 1) (-1)); [lia|]. cbn [Runtime.value].
    unfold splice_delete. rewrite S0 by (rewrite Len; lia).
    rewrite E. apply insert_then_delete. lia.
Qed.

Lemma listInsert_then_listDelete_witness :
  Runtime.value
    (Runtime.listDelete NaN
       (Runtime.listInsert NaN (Runtime.mkList [VString "a"; VString "b"] true)
          (VNumber (ofZ 2)) (VString "x"))
       (VNumber (ofZ 2))) = [VString "a"; VString "b"].
Proof.
  apply (proj2 (proj2 (listInsert_then_listDelete NaN
           (Runtime.mkList [VString "a"; VString "b"] true) 2 (VString "x")
           ltac:(simpl; lia) ltac:(simpl; lia)))).
Defined.

(** listInsert at "last" appends the value, whatever the list; listGet at
    "last" then returns it, and listDelete at "last" gives back the items the
    list had. *)
Theorem listInsert_last_appends (random : number) (list : Runtime.ListVariable) (v : Value) :
  let list' := Runtime.listInsert random list (VString "last") v in
  Runtime.value list' = (Runtime.value list ++ [v])%list /\
  Runtime.listGet random (Runtime.value list') (VString "last") = v /\
  Runtime.value (Runtime.listDelete random list' (VString "last")) = Runtime.value list.
Proof.
  intros list'.
  assert (E : Runtime.value list' = (Runtime.value list ++ [v])%list).
  { unfold list', Runtime.listInsert. simpl Runtime.listIndex.
    destruct (Z.gtb_spec (Z.of_nat (length (Runtime.value list)) + 1) 0); [|lia].
    destruct (Z.eqb_spec (Z.of_nat (length (Runtime.value list)) + 1 - 1) (-1)); [lia|].
    cbn [Runtime.value]. unfold splice_insert, splice_start.
    destruct (Z.ltb_spec (Z.of_nat (length (Runtime.value list)) + 1 - 1) 0); [lia|].
    replace (Z.to_nat (Z.min (Z.of_nat (length (Runtime.value list)) + 1 - 1)
                             (Z.of_nat (length (Runtime.value list)))))
      with (length (Runtime.value list)) by lia.
    now rewrite firstn_all, skipn_all. }
  split; [exact E|].
  assert (Len : Z.of_nat (length (Runtime.value list')) =
                Z.of_nat (length (Runtime.value list)) + 1).
  { rewrite E, length_app. simpl. lia. }
  split.
  - unfold Runtime.listGet. simpl Runtime.listIndex. rewrite Len.
    destruct (Z.gtb_spec (Z.of_nat (length (Runtime.value list)) + 1) 0); [|lia].
    destruct (Z.eqb_spec (Z.of_nat (length (Runtime.value list)) + 1 - 1) (-1)); [lia|].
    rewrite array_get_nth by lia.
    replace (Z.to_nat (Z.of_nat (length (Runtime.value list)) + 1 - 1))
      with (length (Runtime.value list)) by lia.
    rewrite E, app_nth2 by lia. now rewrite Nat.sub_diag.
  - unfold Runtime.listDelete. simpl strictEq. simpl Runtime.listIndex. rewrite Len.
    destruct (Z.gtb_spec (Z.of_nat (length (Runtime.value list)) + 1) 0); [|lia].
    destruct (Z.eqb_spec (Z.of_nat (length (Runtime.value list)) + 1 - 1) (-1)); [lia|].
    cbn [Runtime.value]. unfold splice_delete, splice_start. rewrite Len.
    destruct (Z.ltb_spec (Z.of_nat (length (Runtime.value list)) + 1 - 1) 0); [lia|].
    replace (Z.to_nat (Z.min (Z.of_nat (length (Runtime.value list)) + 1 - 1)
                             (Z.of_nat (length (Runtime.value list)) + 1)))
      with (length (Runtime.value list)) by lia.
    rewrite E, firstn_app, Nat.sub_diag, firstn_all, skipn_app.
    rewrite (skipn_all2 (Runtime.value list)) by lia.
    replace (S (length (Runtime.value list)) - length (Runtime.value list))%nat with 1%nat
      by lia.
    simpl. now rewrite !app_nil_r.
Qed.

(** ** Searching a list *)

Lemma compareEqual_refl (v : Value) : Runtime.compareEqual v v = true.
Proof.
  rewrite compareEqual_cases.
  destruct (compares_as_strings v v) eqn:E; [apply String.eqb_refl|].
  unfold compares_as_strings in E. apply orb_false_elim in E as [_ E].
  apply number_eqb_refl. exact E.
Qed.

(** What is strictly equal is equal for compareEqual. *)
Lemma strictEq_compareEqual (x y : Value) :
  strictEq x y = true -> Runtime.compareEqual x y = true.
Proof.
  destruct x as [| |a|a|a], y as [| |b|b|b]; simpl; try discriminate; intros H.
  - apply compareEqual_refl.
  - apply compareEqual_refl.
  - apply Bool.eqb_prop in H. subst b. apply compareEqual_refl.
  - rewrite compareEqual_cases. unfold compares_as_strings. simpl.
    destruct a as [| | |p], b as [| | |q]; simpl in *; try discriminate; try reflexivity.
    exact H.
  - apply String.eqb_eq in H. subst b. apply compareEqual_refl.
Qed.

Lemma array_indexOf_found (items : list Value) (item : Value) :
  forall i, array_indexOf_from items item i <> -1 ->
    exists x, In x items /\ strictEq x item = true.
Proof.
  induction items as [|x items IH]; intros i H; simpl in H; [contradiction|].
  destruct (strictEq x item) eqn:E.
  - exists x. split; [left; reflexivity | exact E].
  - destruct (IH _ H) as [y [Hy Ey]]. exists y. split; [right; exact Hy | exact Ey].
Qed.

(** The loop finds the first item that compareEqual accepts. *)
Lemma compareEqual_loop_some (items : list Value) (item : Value) :
  forall i k, Runtime.compareEqual_loop items item i = Some k ->
    i <= k < i + Z.of_nat (length items) /\
    Runtime.compareEqual (nth (Z.to_nat (k - i)) items VUndefined) item = true /\
    forall j, (j < Z.to_nat (k - i))%nat ->
      Runtime.compareEqual (nth j items VUndefined) item = false.
Proof.
  induction items as [|x items IH]; intros i k H; simpl in H; [discriminate|].
  destruct (Runtime.compareEqual x item) eqn:E.
  - injection H as <-. rewrite Z.sub_diag. simpl. split; [lia|]. split; [exact E|].
    intros j Hj. lia.
  - destruct (IH _ _ H) as [B [M F]]. split; [simpl length; lia|].
    replace (Z.to_nat (k - i)) with (S (Z.to_nat (k - (i + 1)))) by lia.
    split; [exact M|].
    intros [|j] Hj; [exact E|]. apply F. lia.
Qed.

Lemma compareEqual_loop_none (items : list Value) (item : Value) :
  forall i, Runtime.compareEqual_loop items item i = None <->
    (forall x, In x items -> Runtime.compareEqual x item = false).
Proof.
  induction items as [|x items IH]; intros i; simpl.
  - split; [intros _ y [] | reflexivity].
  - destruct (Runtime.compareEqual x item) eqn:E.
    + split; [discriminate|]. intros H. rewrite (H x) in E by (left; reflexivity).
      discriminate E.
    + rewrite IH. split.
      * intros H y [<-|Hy]; [exact E | apply H; exact Hy].
      * intros H y Hy. apply H. right. exact Hy.
Qed.

(** listIndexOf returns 0 exactly when compareEqual accepts no item of the
    list; otherwise it returns the position, counted from 1, of the first item
    that compareEqual accepts, and listGet at that position (lengths being
    below 2^31) returns an item that compareEqual accepts. *)
Theorem listIndexOf_first_match (random : number) (list : Runtime.ListVariable) (item : Value) :
  let k := Runtime.listIndexOf list item in
  (k = 0 <-> forall x, In x (Runtime.value list) -> Runtime.compareEqual x item = false) /\
  (k <> 0 ->
     1 <= k <= Z.of_nat (length (Runtime.value list)) /\
     Runtime.compareEqual (nth (Z.to_nat (k - 1)) (Runtime.value list) VUndefined) item = true /\
     (forall j, 1 <= j < k ->
        Runtime.compareEqual (nth (Z.to_nat (j - 1)) (Runtime.value list) VUndefined) item
        = false) /\
     (Z.of_nat (length (Runtime.value list)) < 2147483648 ->
        Runtime.compareEqual
          (Runtime.listGet random (Runtime.value list) (VNumber (ofZ k))) item = true)).
Proof.
  intros k. unfold k, Runtime.listIndexOf.
  destruct (Runtime.compareEqual_loop (Runtime.value list) item 0) as [p|] eqn:E.
  - destruct (compareEqual_loop_some _ _ _ _ E) as [B [M F]].
    rewrite Z.sub_0_r in M, F. split.
    + split; [lia|]. intros H. apply compareEqual_loop_none with (i := 0) in H. congruence.
    + intros _. replace (p + 1 - 1) with p by lia.
      split; [lia|]. split; [exact M|]. split.
      * intros j Hj. apply F. lia.
      * intros HL. rewrite listGet_integer by lia.
        replace (p + 1 - 1) with p by lia. exact M.
  - split; [|intros H; contradiction H; reflexivity].
    split; [intros _; apply (compareEqual_loop_none _ _ 0); exact E | reflexivity].
Qed.

Lemma listIndexOf_first_match_witness :
  Runtime.compareEqual
    (Runtime.listGet NaN [VString "a"; VString "B"; VString "b"]
       (VNumber (ofZ (Runtime.listIndexOf
                        (Runtime.mkList [VString "a"; VString "B"; VString "b"] true)
                        (VString "b")))))
    (VString "b") = true.
Proof.
  apply (proj2 (listIndexOf_first_match NaN
           (Runtime.mkList [VString "a"; VString "B"; VString "b"] true) (VString "b"))).
  - vm_compute. discriminate.
  - simpl. lia.
Defined.

(** listContains answers true exactly when compareEqual accepts some item of
    the list, that is exactly when listIndexOf does not return 0: the search
    with [indexOf] that comes first never finds more than the loop does. *)
Theorem listContains_agrees_with_listIndexOf (list : Runtime.ListVariable) (item : Value) :
  Runtime.listContains list item = negb (Runtime.listIndexOf list item =? 0) /\
  (Runtime.listContains list item = true <->
   exists x, In x (Runtime.value list) /\ Runtime.compareEqual x item = true).
Proof.
  assert (L : Runtime.listContains list item =
              match Runtime.compareEqual_loop (Runtime.value list) item 0 with
              | Some _ => true
              | None => false
              end).
  { unfold Runtime.listContains.
    destruct (Z.eqb_spec (array_indexOf (Runtime.value list) item) (-1)) as [_|N];
      [reflexivity|].
    destruct (array_indexOf_found _ _ _ N) as [x [Hx Ex]]. simpl.
    destruct (Runtime.compareEqual_loop (Runtime.value list) item 0) eqn:E; [reflexivity|].
    rewrite compareEqual_loop_none in E.
    pose proof (strictEq_compareEqual x item Ex) as C. rewrite (E x Hx) in C.
    discriminate C. }
  split.
  - rewrite L. unfold Runtime.listIndexOf.
    destruct (Runtime.compareEqual_loop (Runtime.value list) item 0) as [p|] eqn:E;
      [|reflexivity].
    destruct (compareEqual_loop_some _ _ _ _ E) as [B _].
    destruct (Z.eqb_spec (p + 1) 0); [lia | reflexivity].
  - rewrite L.
    destruct (Runtime.compareEqual_loop (Runtime.value list) item 0) as [p|] eqn:E.
    + destruct (compareEqual_loop_some _ _ _ _ E) as [B [M _]]. split; [|reflexivity].
      intros _. eexists. split; [|exact M]. apply nth_In. lia.
    + rewrite compareEqual_loop_none in E. split; [discriminate|].
      intros [x [Hx Ex]]. rewrite (E x Hx) in Ex. discriminate Ex.
Qed.

(** ** Random numbers *)




(** ** The stuck counter over any number of calls *)

Lemma isStuck_calls_state (n : nat) :
  forall w, 0 <= stuckCounter w < 100 ->
    snd (isStuck_calls n w) =
    mkWorld (thread w) (status w) (threads w) (isWaitingThread w) (timeElapsed w)
            (timerReads w + Z.to_nat ((stuckCounter w + Z.of_nat n) / 100))
            ((stuckCounter w + Z.of_nat n) mod 100) (warnings w).
Proof.
  induction n as [|n IH]; intros w H.
  - simpl. unfold ret. simpl. rewrite Z.add_0_r, Z.mod_small, Z.div_small by lia.
    simpl. rewrite Nat.add_0_r. destruct w; reflexivity.
  - cbn [isStuck_calls]. unfold bind at 1.
    destruct (Z.eq_dec (stuckCounter w + 1) 100) as [E|E].
    + rewrite isStuck_at_100 by exact E.
      unfold bind at 1. unfold ret.
      destruct (isStuck_calls n _) as [bs w'] eqn:R. cbn [snd].
      change w' with (snd (bs, w')). rewrite <- R. rewrite IH by (simpl; lia).
      cbn [thread status threads isWaitingThread timeElapsed timerReads stuckCounter
           warnings].
      f_equal.
      * assert (A : (stuckCounter w + Z.of_nat (S n)) / 100 = 1 + (0 + Z.of_nat n) / 100)
          by (Z.to_euclidean_division_equations; lia).
        rewrite A. assert (0 <= (0 + Z.of_nat n) / 100) by (apply Z.div_pos; lia). lia.
      * Z.to_euclidean_division_equations; lia.
    + rewrite isStuck_below_100 by exact E.
      unfold bind at 1. unfold ret.
      destruct (isStuck_calls n _) as [bs w'] eqn:R. cbn [snd].
      change w' with (snd (bs, w')). rewrite <- R. rewrite IH by (simpl; lia).
      cbn [thread status threads isWaitingThread timeElapsed timerReads stuckCounter
           warnings].
      f_equal.
      * f_equal. f_equal. f_equal. lia.
      * f_equal. lia.
Qed.

(** However many times isStuck is called, starting with a counter from 0 to
    99: the counter stays in that range, the timer has been read once per
    completed hundred of calls, and nothing else of the state has changed. *)
Theorem isStuck_reads_timer_once_per_hundred (n : nat) (w : World) :
  0 <= stuckCounter w < 100 ->
  let w' := snd (isStuck_calls n w) in
  0 <= stuckCounter w' < 100 /\
  stuckCounter w' = (stuckCounter w + Z.of_nat n) mod 100 /\
  timerReads w' = (timerReads w + Z.to_nat ((stuckCounter w + Z.of_nat n) / 100))%nat /\
  thread w' = thread w /\ status w' = status w /\ threads w' = threads w /\
  warnings w' = warnings w.
Proof.
  intros H w'. unfold w'. rewrite (isStuck_calls_state n w H).
  cbn [thread status threads isWaitingThread timeElapsed timerReads stuckCounter warnings].
  split; [apply Z.mod_pos_bound; lia|]. repeat split.
Qed.

Lemma isStuck_reads_timer_once_per_hundred_witness :
  timerReads (snd (isStuck_calls 250 sample_world)) = 2%nat.
Proof.
  apply (proj1 (proj2 (proj2 (isStuck_reads_timer_once_per_hundred 250 sample_world
           ltac:(simpl; unfold initial_counter; lia))))).
Defined.

(** ** Waiting for threads, over the whole run *)

Lemma indexOf_absent_iff (a : list ThreadId) (t : ThreadId) :
  indexOf a t = -1 <-> ~ In t a.
Proof.
  split.
  - intros H Hin. pose proof (indexOf_from_present a t Hin 0 (Z.le_refl 0)) as P.
    unfold indexOf in H. lia.
  - intros H. apply indexOf_from_absent. exact H.
Qed.

Lemma anyRunning_false_iff (ts active : list ThreadId) :
  existsb (fun t => negb (indexOf active t =? -1)) ts = false <->
  (forall t, In t ts -> ~ In t active).
Proof.
  split; [|apply anyRunning_false].
  intros H t Ht Hact.
  rewrite (anyRunning_true ts active t Ht Hact) in H. discriminate H.
Qed.

(** What one round of the loop can end in. *)
Lemma waitThreads_loop_outcome (f : WaitThreadsFrame) (w : World) :
  (fst (waitThreads_loop f w) = Return tt /\ snd (waitThreads_loop f w) = w /\
   forall t, In t (wt_threads f) -> ~ In t (threads w)) \/
  (fst (waitThreads_loop f w) = Yield f /\
   threads (snd (waitThreads_loop f w)) = threads w /\
   exists t, In t (wt_threads f) /\ In t (threads w)).
Proof.
  unfold waitThreads_loop, bind, gets, ret.
  destruct (existsb (fun t => negb (indexOf (threads w) t =? -1)) (wt_threads f)) eqn:E.
  - right. cbn [negb].
    apply existsb_exists in E as [t [Ht Et]].
    assert (A : In t (threads w)).
    { destruct (in_dec Nat.eq_dec t (threads w)) as [I|I]; [exact I|].
      apply indexOf_absent_iff in I. rewrite I in Et. discriminate Et. }
    destruct (forallb (isWaitingThread w) (wt_threads f)); simpl;
      (split; [reflexivity | split; [reflexivity | exists t; split; assumption]]).
  - left. cbn [negb fst snd]. split; [reflexivity|]. split; [reflexivity|].
    apply anyRunning_false_iff. exact E.
Qed.

Lemma drive_waitThreads (ts : list ThreadId) (env : nat -> World -> World) (fuel : nat) :
  forall n s w,
    match s with
    | Return _ => forall t, In t ts -> ~ In t (threads w)
    | Yield f => wt_threads f = ts
    | Throw _ => False
    end ->
    forall r n' w',
      drive waitThreads_next env fuel n s w = (Some r, n', w') ->
      r = inl tt /\ (n <= n')%nat /\ forall t, In t ts -> ~ In t (threads w').
Proof.
  induction fuel as [|fuel IH]; intros n s w G r n' w' H.
  - destruct s as [f|[]|e]; simpl in H; [discriminate H | | contradiction].
    injection H as <- <- <-. split; [reflexivity|]. split; [lia | exact G].
  - destruct s as [f|[]|e]; cbn [drive] in H; [| | contradiction].
    + unfold waitThreads_next in H.
      destruct (waitThreads_loop f (env n w)) as [s1 w1] eqn:R.
      pose proof (waitThreads_loop_outcome f (env n w)) as O. rewrite R in O.
      cbn [fst snd] in O.
      assert ((S n <= n')%nat /\ r = inl tt /\ forall t, In t ts -> ~ In t (threads w')) as Q.
      { destruct O as [[-> [-> O]]|[-> _]].
        - destruct (IH (S n) (Return tt) (env n w) ltac:(rewrite <- G; exact O) r n' w' H)
            as [A [B C]]. split; [lia|]. split; assumption.
        - destruct (IH (S n) (Yield f) w1 G r n' w' H) as [A [B C]].
          split; [lia|]. split; assumption. }
      destruct Q as [A [B C]]. split; [exact B|]. split; [lia | exact C].
    + injection H as <- <- <-. split; [reflexivity|]. split; [lia | exact G].
Qed.

(** However the rest of the engine acts between the resumptions: when the
    waitThreads generator comes to its end it has returned, not thrown, and at
    that moment none of the threads it was given is in the list of active
    threads.  If one of them was active at the start, it has been suspended at
    least once before. *)
Theorem waitThreads_ends_when_all_inactive (ts : list ThreadId)
  (env : nat -> World -> World) (fuel : nat) (w : World) :
  forall r n w',
    drive waitThreads_next env fuel 0 (fst (waitThreads ts w)) (snd (waitThreads ts w))
    = (Some r, n, w') ->
    r = inl tt /\
    (forall t, In t ts -> ~ In t (threads w')) /\
    ((exists t, In t ts /\ In t (threads w)) -> (1 <= n)%nat).
Proof.
  intros r n w' H.
  pose proof (waitThreads_loop_outcome {| wt_threads := ts; wt_thread := thread w |} w) as O.
  change (waitThreads_loop {| wt_threads := ts; wt_thread := thread w |} w)
    with (waitThreads ts w) in O.
  cbn [wt_threads] in O.
  destruct O as [[E1 [E2 O]]|[E1 [E2 O]]]; rewrite E1 in H.
  - rewrite E2 in H. destruct fuel; simpl in H; injection H as <- <- <-.
    + split; [reflexivity|]. split; [exact O|].
      intros [t [Ht Ha]]. exfalso. exact (O t Ht Ha).
    + split; [reflexivity|]. split; [exact O|].
      intros [t [Ht Ha]]. exfalso. exact (O t Ht Ha).
  - destruct fuel as [|fuel]; [simpl in H; discriminate H|].
    cbn [drive] in H.
    destruct (waitThreads_next _ _) as [s1 w1] eqn:R.
    pose proof (waitThreads_loop_outcome {| wt_threads := ts; wt_thread := thread w |}
                  (env 0%nat (snd (waitThreads ts w)))) as O1.
    unfold waitThreads_next in R. rewrite R in O1. cbn [fst snd wt_threads] in O1.
    assert (G : match s1 with
                | Return _ => forall t, In t ts -> ~ In t (threads w1)
                | Yield f => wt_threads f = ts
                | Throw _ => False
                end).
    { destruct O1 as [[-> [-> O1]]|[-> _]]; [exact O1 | reflexivity]. }
    destruct (drive_waitThreads ts env fuel 1 s1 w1 G r n w' H) as [A [B C]].
    split; [exact A|]. split; [exact C|]. intros _. exact B.
Qed.

(** A first step of waitThreads changes nothing of the state but, possibly,
    the status of the current thread: that becomes YIELD_TICK when a listed
    thread is still active and all listed threads are waiting, and is left
    alone otherwise. *)
Theorem waitThreads_touches_only_own_status (ts : list ThreadId) (w : World) :
  let w' := snd (waitThreads ts w) in
  thread w' = thread w /\ threads w' = threads w /\ warnings w' = warnings w /\
  stuckCounter w' = stuckCounter w /\ timerReads w' = timerReads w /\
  (forall t, t <> thread w -> status w' t = status w t) /\
  ((exists t, In t ts /\ In t (threads w)) ->
   (forall t, In t ts -> isWaitingThread w t = true) ->
   status w' (thread w) = STATUS_YIELD_TICK) /\
  ((forall t, In t ts -> ~ In t (threads w)) \/
   (exists t, In t ts /\ isWaitingThread w t = false) ->
   w' = w).
Proof.
  intros w'. unfold w', waitThreads, waitThreads_loop, bind, gets, ret.
  cbn [wt_threads wt_thread].
  destruct (existsb (fun t => negb (indexOf (threads w) t =? -1)) ts) eqn:E; cbn [negb].
  - destruct (forallb (isWaitingThread w) ts) eqn:F; simpl.
    + repeat split.
      * intros t Ht. destruct (Nat.eqb_spec t (thread w)); [contradiction | reflexivity].
      * intros _ _. now rewrite Nat.eqb_refl.
      * intros [O|[t [Ht Wt]]].
        -- apply anyRunning_false_iff in O. congruence.
        -- rewrite forallb_forall in F. rewrite (F t Ht) in Wt. discriminate Wt.
    + repeat split. intros _ A. exfalso.
      assert (forallb (isWaitingThread w) ts = true) by (apply forallb_forall; exact A).
      congruence.
  - simpl. repeat split. intros [t [Ht Ha]] _. exfalso.
    rewrite (anyRunning_true ts (threads w) t Ht Ha) in E. discriminate E.
Qed.

Lemma waitThreads_touches_only_own_status_witness :
  status (snd (waitThreads [1%nat]
    (mkWorld 0%nat (fun _ => STATUS_RUNNING) [1%nat; 2%nat] (fun _ => true)
             (fun _ => ofZ 0) 0%nat initial_counter []))) 0%nat = STATUS_YIELD_TICK.
Proof.
  apply (proj1 (proj2 (proj2 (proj2 (proj2 (proj2 (proj2
           (waitThreads_touches_only_own_status [1%nat]
              (mkWorld 0%nat (fun _ => STATUS_RUNNING) [1%nat; 2%nat] (fun _ => true)
                       (fun _ => ofZ 0) 0%nat initial_counter []))))))))).
  - exists 1%nat. simpl. split; [left; reflexivity | left; reflexivity].
  - intros t _. reflexivity.
Defined.

(** ** Stepping a thread that waits for a promise *)

(** execute makes the thread it is given the current one, so a script that
    starts waitPromise under execute(t) puts [t] - and no other thread - into
    PROMISE_WAIT.  The handlers act on that same thread: whenever the promise
    settles, whichever thread is current by then, [t] is set to RUNNING and no
    other thread's status changes. *)
Theorem execute_waitPromise_acts_on_stepped_thread (w : World) (t : ThreadId) :
  exists f,
    fst (execute waitPromise t w) = Yield f /\
    let w1 := snd (execute waitPromise t w) in
    thread w1 = t /\
    status w1 t = STATUS_PROMISE_WAIT /\
    (forall t', t' <> t -> status w1 t' = status w t') /\
    forall (outcome : Settlement) (w2 : World),
      let w3 := snd (settle outcome f w2) in
      status w3 t = STATUS_RUNNING /\
      (forall t', t' <> t -> status w3 t' = status w2 t') /\
      thread w3 = thread w2.
Proof.
  eexists. split; [reflexivity|]. cbv zeta.
  split; [reflexivity|]. split; [simpl; now rewrite Nat.eqb_refl|]. split.
  - intros t' H. simpl. destruct (Nat.eqb_spec t' t); [contradiction | reflexivity].
  - intros [value|error] w2; simpl; rewrite Nat.eqb_refl;
      (split; [reflexivity|]); (split; [|reflexivity]);
      intros t' H; destruct (Nat.eqb_spec t' t); try contradiction; reflexivity.
Qed.

(** ** The compatibility layer *)

Lemma isStuck_status (w : World) :
  status (snd (isStuck w)) = status w /\ thread (snd (isStuck w)) = thread w.
Proof.
  destruct (Z.eq_dec (stuckCounter w + 1) 100) as [E|E].
  - rewrite isStuck_at_100 by exact E. split; reflexivity.
  - rewrite isStuck_below_100 by exact E. split; reflexivity.
Qed.


(** The definitions selected for the unit of a script include that of isStuck
    exactly when "isStuck" occurs in the script: this is the test that
    [Compat.call_isStuck] makes. *)
Lemma isStuck_selected_iff (source : string) :
  Str.includes source "isStuck" = true <->
  In ("isStuck", Assembler.text_isStuck) (referenced source).
Proof.
  unfold referenced. rewrite filter_In. cbn [fst]. split.
  - intros H. split; [|exact H]. unfold Assembler.runtimeFunctions. left. reflexivity.
  - intros [_ H]. exact H.
Qed.

(** The code after a call of the block function, case by case. *)
Lemma after_plain_done src bf uf t fuel v s :
  status (Compat.world s) t <> STATUS_YIELD ->
  status (Compat.world s) t <> STATUS_YIELD_TICK ->
  Compat.after_executeBlock src bf uf t fuel (Compat.Plain v) s = (Some (Return v), s).
Proof.
  intros H2 H3. destruct fuel; cbn [Compat.after_executeBlock]; unfold bind, gets;
  destruct (Z.eqb_spec (status (Compat.world s) t) STATUS_YIELD); try contradiction;
  destruct (Z.eqb_spec (status (Compat.world s) t) STATUS_YIELD_TICK); try contradiction;
  reflexivity.
Qed.

Lemma after_plain_tick src bf uf t fuel v s :
  status (Compat.world s) t = STATUS_YIELD_TICK ->
  Compat.after_executeBlock src bf uf t fuel (Compat.Plain v) s =
  (Some (Yield (Compat.InLoop t)), s).
Proof.
  intros H3. destruct fuel; cbn [Compat.after_executeBlock]; unfold bind, gets;
  rewrite H3; reflexivity.
Qed.

Lemma after_plain_yield_no_warp src bf uf t fuel v s :
  status (Compat.world s) t = STATUS_YIELD -> Compat.warp s t = 0 ->
  Compat.after_executeBlock src bf uf t fuel (Compat.Plain v) s =
  (Some (Yield (Compat.InLoop t)), running t s).
Proof.
  intros H2 W. destruct fuel; cbn [Compat.after_executeBlock]; unfold bind, gets;
  rewrite H2; cbn [Z.eqb STATUS_YIELD orb Pos.eqb];
  unfold running; destruct (Compat.lift (set_status t STATUS_RUNNING) s) as [u s1] eqn:R;
  cbn [snd].
  all: assert (Compat.warp s1 t = 0) as -> by (unfold Compat.lift in R; simpl in R; injection R as _ <-; exact W); reflexivity.
Qed.

Lemma after_plain_yield_warp src bf uf t fuel v s :
  status (Compat.world s) t = STATUS_YIELD -> Compat.warp s t <> 0 ->
  Str.includes src "isStuck" = true ->
  Compat.after_executeBlock src bf uf t fuel (Compat.Plain v) s =
  let (stuck, s1) := Compat.lift isStuck (running t s) in
  if stuck then (Some (Yield (Compat.InLoop t)), s1)
  else match fuel with
       | O => (None, s1)
       | S fuel' =>
           let (rv, s2) := Compat.executeBlock bf t s1 in
           Compat.after_executeBlock src bf uf t fuel' rv s2
       end.
Proof.
  intros H2 W D. destruct fuel; cbn [Compat.after_executeBlock]; unfold bind, gets;
  rewrite H2; cbn [Z.eqb STATUS_YIELD orb Pos.eqb];
  unfold running; destruct (Compat.lift (set_status t STATUS_RUNNING) s) as [u s1] eqn:R;
  cbn [snd].
  all: assert (Compat.warp s1 t = Compat.warp s t) as -> by (unfold Compat.lift in R; simpl in R; injection R as _ <-; reflexivity).
  all: destruct (Z.eqb_spec (Compat.warp s t) 0); [contradiction|].
  all: unfold Compat.call_isStuck; rewrite D; unfold bind, ret.
  all: destruct (Compat.lift isStuck s1) as [b s2]; destruct b; reflexivity.
Qed.

(** The call of an isStuck that the unit does not declare. *)
Lemma after_plain_yield_warp_undeclared src bf uf t fuel v s :
  status (Compat.world s) t = STATUS_YIELD -> Compat.warp s t <> 0 ->
  Str.includes src "isStuck" = false ->
  Compat.after_executeBlock src bf uf t fuel (Compat.Plain v) s =
  (Some (Throw "ReferenceError"), running t s).
Proof.
  intros H2 W D. destruct fuel; cbn [Compat.after_executeBlock]; unfold bind, gets;
  rewrite H2; cbn [Z.eqb STATUS_YIELD orb Pos.eqb];
  unfold running; destruct (Compat.lift (set_status t STATUS_RUNNING) s) as [u s1] eqn:R;
  cbn [snd].
  all: assert (Compat.warp s1 t = Compat.warp s t) as -> by (unfold Compat.lift in R; simpl in R; injection R as _ <-; reflexivity).
  all: destruct (Z.eqb_spec (Compat.warp s t) 0); [contradiction|].
  all: unfold Compat.call_isStuck; rewrite D; reflexivity.
Qed.

Lemma after_promise src bf uf t fuel p s :
  Compat.after_executeBlock src bf uf t fuel (Compat.Promise p) s =
  (Some (Yield (Compat.InWaitPromise
                  {| wp_thread := thread (Compat.world s); wp_returnValue := VUndefined |})),
   snd (Compat.lift (set_status (thread (Compat.world s)) STATUS_PROMISE_WAIT) s)).
Proof.
  destruct fuel; reflexivity.
Qed.

Lemma running_status t s : status (Compat.world (running t s)) t = STATUS_RUNNING.
Proof. unfold running, Compat.lift. simpl. now rewrite Nat.eqb_refl. Qed.

Lemma running_warp t s : Compat.warp (running t s) = Compat.warp s.
Proof. reflexivity. Qed.

Lemma lift_isStuck_status s :
  status (Compat.world (snd (Compat.lift isStuck s))) = status (Compat.world s).
Proof.
  unfold Compat.lift. pose proof (isStuck_status (Compat.world s)) as [H _].
  destruct (isStuck (Compat.world s)) as [b w]. exact H.
Qed.

(** The status of the thread at each way out of the code that follows a call
    of the block function. *)
Lemma after_executeBlock_status (source : string)
  (blockFunction : M Compat.State Compat.Returned) (useFlags : bool) (t : ThreadId)
  (fuel : nat) :
  forall returnValue s,
    exit_status source t
      (Compat.after_executeBlock source blockFunction useFlags t fuel returnValue s).
Proof.
  induction fuel as [|fuel IH]; intros [v|p] s.
  2, 4: rewrite after_promise; cbn [exit_status wp_thread]; unfold Compat.lift; simpl;
        rewrite Nat.eqb_refl; split; reflexivity.
  all: destruct (Z.eq_dec (status (Compat.world s) t) STATUS_YIELD) as [E2|E2];
    [ destruct (Z.eq_dec (Compat.warp s t) 0) as [W|W];
      [ rewrite after_plain_yield_no_warp by assumption;
        split; [reflexivity | left; apply running_status]
      | destruct (Str.includes source "isStuck") eqn:D;
        [ rewrite after_plain_yield_warp by assumption;
          pose proof (lift_isStuck_status (running t s)) as S1;
          destruct (Compat.lift isStuck (running t s)) as [b s1]; cbn [snd] in S1;
          destruct b;
          [ split; [reflexivity | left; rewrite S1; apply running_status] | ]
        | rewrite after_plain_yield_warp_undeclared by assumption;
          cbn [exit_status]; rewrite D, running_warp;
          split; [reflexivity | split; [reflexivity | split; [exact W | apply running_status]]] ] ]
    | destruct (Z.eq_dec (status (Compat.world s) t) STATUS_YIELD_TICK) as [E3|E3];
      [ rewrite after_plain_tick by assumption; split; [reflexivity | right; exact E3]
      | rewrite after_plain_done by assumption; split; assumption ] ].
  - exact I.
  - destruct (Compat.executeBlock blockFunction t s1) as [rv s2]. apply IH.
Qed.

(** The three ways into executeInCompatibilityLayer, for a block function that
    returns a plain value or a promise, whatever it does to the state, and for
    any script [source] the unit was assembled for.
    The first step and a resumption in the loop run the block function.  When
    such a step returns, the thread's status is neither YIELD nor YIELD_TICK;
    when it suspends in the loop, the status is RUNNING or YIELD_TICK, never
    YIELD; when it suspends for a promise, the current thread is in
    PROMISE_WAIT; and it throws only where it calls isStuck - in warp mode,
    the status already reset to RUNNING - and only if the script does not
    contain "isStuck", so that the unit does not declare it.
    The resumption after a promise runs nothing of this: it returns the value
    the handlers recorded and tests or changes no status; of the state only
    the flag hasResumedFromPromise can differ. *)
Theorem executeInCompatibilityLayer_status_at_exit (source : string)
  (blockFunction : M Compat.State Compat.Returned) (useFlags : bool) (fuel : nat)
  (s : Compat.State) :
  exit_status source (thread (Compat.world s))
    (Compat.executeInCompatibilityLayer source blockFunction useFlags fuel s) /\
  (forall t,
     exit_status source t
       (Compat.executeInCompatibilityLayer_next source blockFunction useFlags fuel
          (Compat.InLoop t) s)) /\
  (forall wf,
     Compat.executeInCompatibilityLayer_next source blockFunction useFlags fuel
       (Compat.InWaitPromise wf) s =
     (Some (Return (wp_returnValue wf)), resumed useFlags s)).
Proof.
  split; [|split].
  - unfold Compat.executeInCompatibilityLayer, bind, gets, Compat.reuse, modify.
    cbn [Compat.world].
    destruct (Compat.executeBlock blockFunction (thread (Compat.world s)) _) as [rv s1].
    apply after_executeBlock_status.
  - intros t. unfold Compat.executeInCompatibilityLayer_next, bind.
    destruct (Compat.executeBlock blockFunction t s) as [rv s1].
    apply after_executeBlock_status.
  - intros wf. unfold resumed. destruct s, useFlags; reflexivity.
Qed.

(** When the block function returns a promise, the first step suspends with the
    current thread in PROMISE_WAIT.  Once the promise has settled, the next step
    returns the value it was fulfilled with (undefined if it was rejected)
    without running the block function again; the thread is RUNNING, and
    hasResumedFromPromise has been set if useFlags is true and is unchanged
    otherwise.  This holds for every script the unit was assembled for. *)
Theorem executeInCompatibilityLayer_awaits_promise (source : string)
  (blockFunction : M Compat.State Compat.Returned) (useFlags : bool) (fuel : nat)
  (s : Compat.State) :
  (forall s', Compat.isPromise (fst (blockFunction s')) = true) ->
  exists wf s1,
    Compat.executeInCompatibilityLayer source blockFunction useFlags fuel s =
      (Some (Yield (Compat.InWaitPromise wf)), s1) /\
    status (Compat.world s1) (thread (Compat.world s1)) = STATUS_PROMISE_WAIT /\
    forall outcome : Settlement,
      let s2 := snd (Compat.settle_frame outcome (Compat.InWaitPromise wf) s1) in
      let f2 := fst (Compat.settle_frame outcome (Compat.InWaitPromise wf) s1) in
      let r := Compat.executeInCompatibilityLayer_next source blockFunction useFlags fuel f2 s2 in
      fst r = Some (Return match outcome with
                           | Fulfilled value => value
                           | Rejected _ => VUndefined
                           end) /\
      status (Compat.world (snd r)) (thread (Compat.world s1)) = STATUS_RUNNING /\
      Compat.hasResumedFromPromise (snd r) = (useFlags || Compat.hasResumedFromPromise s1) /\
      Compat.executions (snd r) = Compat.executions s1.
Proof.
  intros H.
  unfold Compat.executeInCompatibilityLayer, bind, gets, Compat.reuse, modify.
  cbn [Compat.world].
  destruct (Compat.executeBlock blockFunction (thread (Compat.world s)) _) as [rv s1] eqn:R.
  assert (P : Compat.isPromise rv = true).
  { unfold Compat.executeBlock, bind, modify in R.
    match type of R with context [blockFunction ?s0] => specialize (H s0);
      destruct (blockFunction s0) as [rv' s'] end.
    injection R as <- _. exact H. }
  destruct rv as [v|p]; [discriminate P|].
  rewrite after_promise. eexists. eexists. split; [reflexivity|].
  split; [unfold Compat.lift; simpl; now rewrite Nat.eqb_refl|].
  intros [value|error]; cbv zeta; destruct useFlags; unfold Compat.lift; simpl;
    rewrite ?Nat.eqb_refl; repeat split.
Qed.

(** A call of a block function that only asks to yield. *)
Lemma executeBlock_yielding (blockFunction : M Compat.State Compat.Returned) (t : ThreadId)
  (s : Compat.State) :
  (forall s', exists v, blockFunction s' = Compat.yielding_block v s') ->
  exists v,
    Compat.executeBlock blockFunction t s =
    (Compat.Plain v,
     Compat.mkState
       (mkWorld (thread (Compat.world s))
                (fun t' => if Nat.eqb t' t then STATUS_YIELD else status (Compat.world s) t')
                (threads (Compat.world s)) (isWaitingThread (Compat.world s))
                (timeElapsed (Compat.world s)) (timerReads (Compat.world s))
                (stuckCounter (Compat.world s)) (warnings (Compat.world s)))
       (Compat.warp s) (Compat.hasResumedFromPromise s) (Compat.reused s) (Some t)
       (S (Compat.executions s))).
Proof.
  intros H. unfold Compat.executeBlock, bind, modify.
  match goal with |- context [blockFunction ?s0] => destruct (H s0) as [v E]; rewrite E end.
  exists v. reflexivity.
Qed.

(** In warp mode, [k] rounds before the hundredth call of isStuck. *)
Lemma warp_rounds (source : string) (blockFunction : M Compat.State Compat.Returned)
  (useFlags : bool) (t : ThreadId) :
  Str.includes source "isStuck" = true ->
  (forall s', exists v, blockFunction s' = Compat.yielding_block v s') ->
  forall (k fuel : nat) (s : Compat.State) (v : Value),
    (k <= fuel)%nat ->
    status (Compat.world s) t = STATUS_YIELD ->
    Compat.warp s t <> 0 ->
    stuckCounter (Compat.world s) = 99 - Z.of_nat k ->
    Num.gtb (timeElapsed (Compat.world s) (timerReads (Compat.world s))) (ofZ 500) = true ->
    exists s',
      Compat.after_executeBlock source blockFunction useFlags t fuel (Compat.Plain v) s =
        (Some (Yield (Compat.InLoop t)), s') /\
      Compat.executions s' = (Compat.executions s + k)%nat /\
      status (Compat.world s') t = STATUS_RUNNING /\
      timerReads (Compat.world s') = S (timerReads (Compat.world s)) /\
      stuckCounter (Compat.world s') = 0.
Proof.
  intros D Hbf. induction k as [|k IH]; intros fuel s v Hk H2 W C T.
  - rewrite after_plain_yield_warp by assumption.
    unfold Compat.lift, running, Compat.lift. cbn [set_status modify snd Compat.world].
    rewrite isStuck_at_100 by (cbn [stuckCounter]; rewrite C; reflexivity).
    cbn [timeElapsed timerReads]. rewrite T.
    eexists. split; [reflexivity|]. cbn. rewrite Nat.eqb_refl, Nat.add_0_r. repeat split.
  - rewrite after_plain_yield_warp by assumption.
    unfold Compat.lift at 1. unfold running, Compat.lift. cbn [set_status modify snd Compat.world].
    rewrite isStuck_below_100 by (cbn [stuckCounter]; lia).
    destruct fuel as [|fuel]; [lia|].
    match goal with |- context [Compat.executeBlock blockFunction t ?s1] =>
      destruct (executeBlock_yielding blockFunction t s1 Hbf) as [v' E]; rewrite E end.
    cbn [Compat.world Compat.warp Compat.hasResumedFromPromise Compat.reused
         Compat.executions thread status threads isWaitingThread timeElapsed timerReads
         stuckCounter warnings].
    match goal with |- context [Compat.after_executeBlock _ _ _ _ _ _ ?s2] =>
      destruct (IH fuel s2 v') as [s' [R [X1 [X2 [X3 X4]]]]] end.
    + lia.
    + cbn. now rewrite Nat.eqb_refl.
    + exact W.
    + cbn [Compat.world stuckCounter]. rewrite C. lia.
    + exact T.
    + exists s'. split; [exact R|]. cbn in X1, X3. split; [lia|]. repeat split; assumption.
Qed.

(** A block function that asks to yield every time it runs (it sets the
    thread's status to YIELD and returns a plain value), in the unit assembled
    for the script [source].  Outside warp mode the generator suspends after
    the first run, without reading the timer, whatever the script.  In warp
    mode the layer calls isStuck.  If "isStuck" occurs in the script, so that
    the unit declares it, then with the stuck counter at 0 and a timer that
    reads more than 500 ms the block function runs 100 times in a row and only
    then the generator suspends, the timer having been read once; the status is
    back to RUNNING.  If "isStuck" does not occur in the script, the step
    throws a ReferenceError after the first run of the block function, the
    status reset to RUNNING and the timer not read. *)
Theorem executeInCompatibilityLayer_yields_when_stuck (source : string)
  (blockFunction : M Compat.State Compat.Returned) (useFlags : bool) (fuel : nat)
  (s : Compat.State) :
  (forall s', exists v, blockFunction s' = Compat.yielding_block v s') ->
  let t := thread (Compat.world s) in
  (Compat.warp s t = 0 ->
   exists s',
     Compat.executeInCompatibilityLayer source blockFunction useFlags fuel s =
       (Some (Yield (Compat.InLoop t)), s') /\
     Compat.executions s' = S (Compat.executions s) /\
     status (Compat.world s') t = STATUS_RUNNING /\
     timerReads (Compat.world s') = timerReads (Compat.world s)) /\
  (Compat.warp s t <> 0 ->
   Str.includes source "isStuck" = true ->
   stuckCounter (Compat.world s) = 0 ->
   Num.gtb (timeElapsed (Compat.world s) (timerReads (Compat.world s))) (ofZ 500) = true ->
   (99 <= fuel)%nat ->
   exists s',
     Compat.executeInCompatibilityLayer source blockFunction useFlags fuel s =
       (Some (Yield (Compat.InLoop t)), s') /\
     Compat.executions s' = (Compat.executions s + 100)%nat /\
     status (Compat.world s') t = STATUS_RUNNING /\
     timerReads (Compat.world s') = S (timerReads (Compat.world s)) /\
     stuckCounter (Compat.world s') = 0) /\
  (Compat.warp s t <> 0 ->
   Str.includes source "isStuck" = false ->
   exists s',
     Compat.executeInCompatibilityLayer source blockFunction useFlags fuel s =
       (Some (Throw "ReferenceError"), s') /\
     Compat.executions s' = S (Compat.executions s) /\
     status (Compat.world s') t = STATUS_RUNNING /\
     timerReads (Compat.world s') = timerReads (Compat.world s) /\
     stuckCounter (Compat.world s') = stuckCounter (Compat.world s)).
Proof.
  intros Hbf t.
  split; [|split].
  - intros W.
    unfold Compat.executeInCompatibilityLayer, bind, gets, Compat.reuse, modify.
    cbn [Compat.world]. fold t.
    match goal with |- context [Compat.executeBlock blockFunction t ?s1] =>
      destruct (executeBlock_yielding blockFunction t s1 Hbf) as [v E]; rewrite E end.
    rewrite after_plain_yield_no_warp
      by (cbn; rewrite ?Nat.eqb_refl; first [reflexivity | exact W]).
    eexists. split; [reflexivity|].
    unfold running, Compat.lift. cbn. rewrite Nat.eqb_refl. repeat split.
  - intros W D C0 T Hf.
    unfold Compat.executeInCompatibilityLayer, bind, gets, Compat.reuse, modify.
    cbn [Compat.world]. fold t.
    match goal with |- context [Compat.executeBlock blockFunction t ?s1] =>
      destruct (executeBlock_yielding blockFunction t s1 Hbf) as [v E]; rewrite E end.
    match goal with |- context [Compat.after_executeBlock _ _ _ _ _ _ ?s2] =>
      destruct (warp_rounds source blockFunction useFlags t D Hbf 99 fuel s2 v)
        as [s' [R [X1 [X2 [X3 X4]]]]] end.
    + exact Hf.
    + cbn. now rewrite Nat.eqb_refl.
    + exact W.
    + cbn [Compat.world stuckCounter]. rewrite C0. reflexivity.
    + exact T.
    + exists s'. split; [exact R|]. cbn in X1, X3. split; [lia|]. repeat split; assumption.
  - intros W D.
    unfold Compat.executeInCompatibilityLayer, bind, gets, Compat.reuse, modify.
    cbn [Compat.world]. fold t.
    match goal with |- context [Compat.executeBlock blockFunction t ?s1] =>
      destruct (executeBlock_yielding blockFunction t s1 Hbf) as [v E]; rewrite E end.
    rewrite after_plain_yield_warp_undeclared
      by (cbn; rewrite ?Nat.eqb_refl; first [reflexivity | exact W | exact D]).
    eexists. split; [reflexivity|].
    unfold running, Compat.lift. cbn. rewrite Nat.eqb_refl. repeat split.
Qed.

(** In the unit of a script that names both the layer and isStuck. *)
Lemma executeInCompatibilityLayer_yields_when_stuck_witness :
  exists s',
    Compat.executeInCompatibilityLayer
      "yield* executeInCompatibilityLayer(a, f, false); if (isStuck()) yield;"
      (Compat.yielding_block VUndefined) false 99
      (sample_state 1) = (Some (Yield (Compat.InLoop 0%nat)), s') /\
    Compat.executions s' = 100%nat.
Proof.
  destruct (proj1 (proj2 (executeInCompatibilityLayer_yields_when_stuck
                     "yield* executeInCompatibilityLayer(a, f, false); if (isStuck()) yield;"
                     (Compat.yielding_block VUndefined) false 99 (sample_state 1)
                     (fun s' => ex_intro _ VUndefined eq_refl)))
              ltac:(discriminate) eq_refl eq_refl eq_refl (le_n 99))
    as [s' [R [X _]]].
  exists s'. split; [exact R | exact X].
Defined.

Lemma executeInCompatibilityLayer_awaits_promise_witness :
  exists wf s1,
    Compat.executeInCompatibilityLayer "yield* executeInCompatibilityLayer(a, f, true)"
      (ret (Compat.Promise 0)) true 0 (sample_state 0) =
      (Some (Yield (Compat.InWaitPromise wf)), s1) /\
    status (Compat.world s1) 0%nat = STATUS_PROMISE_WAIT.
Proof.
  destruct (executeInCompatibilityLayer_awaits_promise
              "yield* executeInCompatibilityLayer(a, f, true)" (ret (Compat.Promise 0)) true 0
              (sample_state 0) (fun _ => eq_refl))
    as [wf [s1 [R [X _]]]].
  exists wf, s1. split; [exact R|].
  injection R as _ <-. reflexivity.
Defined.

Lemma waitThreads_ends_when_all_inactive_witness :
  @inl unit string tt = inl tt /\
  (forall t, In t [1%nat] -> ~ In t (threads (all_threads_end sample_world))) /\
  ((exists t, In t [1%nat] /\ In t (threads sample_world)) -> (1 <= 1)%nat).
Proof.
  apply (waitThreads_ends_when_all_inactive [1%nat] (fun _ => all_threads_end) 1
           sample_world (inl tt) 1%nat (all_threads_end sample_world)).
  reflexivity.
Defined.

(** ** Variables *)

(** Constructing a variable succeeds exactly for the three type tags '', 'list'
    and 'broadcast_msg'; for any other tag it throws an Error whose message
    names the tag.  A scalar starts at 0, a list starts empty, a broadcast
    message holds its own name; the name, the tag and the cloud flag are kept,
    and so is the id unless it is empty, in which case the generated one is
    taken. *)
Theorem Variable_new_type_tags (uid id name type : string) (isCloud : bool) :
  ((exists v, ScratchVariable.new uid id name type isCloud = inl v) <->
   type = "" \/ type = "list" \/ type = "broadcast_msg") /\
  (type <> "" -> type <> "list" -> type <> "broadcast_msg" ->
   ScratchVariable.new uid id name type isCloud = inr ("Invalid variable type: " ++ type)) /\
  (forall v, ScratchVariable.new uid id name type isCloud = inl v ->
     ScratchVariable.name v = name /\ ScratchVariable.type v = type /\ ScratchVariable.isCloud v = isCloud /\
     ScratchVariable.id v = (if String.eqb id "" then uid else id) /\
     ScratchVariable.value v =
       (if String.eqb type "" then ScratchVariable.Scalar (VNumber (Fin 0))
        else if String.eqb type "list" then ScratchVariable.Items []
        else ScratchVariable.Scalar (VString name))).
Proof.
  unfold ScratchVariable.new, ScratchVariable.SCALAR_TYPE, ScratchVariable.LIST_TYPE,
    ScratchVariable.BROADCAST_MESSAGE_TYPE.
  destruct (String.eqb_spec type "") as [E1|E1];
    [|destruct (String.eqb_spec type "list") as [E2|E2];
      [|destruct (String.eqb_spec type "broadcast_msg") as [E3|E3]]].
  - split; [split; [tauto | intros _; eexists; reflexivity]|].
    split; [intros N; contradiction|].
    intros v H. injection H as <-. repeat split.
  - split; [split; [tauto | intros _; eexists; reflexivity]|].
    split; [intros _ N; contradiction|].
    intros v H. injection H as <-. repeat split.
  - split; [split; [tauto | intros _; eexists; reflexivity]|].
    split; [intros _ _ N; contradiction|].
    intros v H. injection H as <-. repeat split.
  - split; [split; [intros [v H]; discriminate H | intros [H|[H|H]]; contradiction]|].
    split; [reflexivity|].
    intros v H. discriminate H.
Qed.

Lemma Variable_new_type_tags_witness :
  ScratchVariable.new "generated" "" "score" "number" false =
  inr ("Invalid variable type: " ++ "number").
Proof.
  apply (proj1 (proj2 (Variable_new_type_tags "generated" "" "score" "number" false)));
    discriminate.
Defined.

(** ** Registrations of the EventEmitter *)

(** [on] only ever adds: after any series of registrations the array holds one
    {eventName, listener} entry per registration, in the order of the calls,
    repeated registrations included, and no listener has been called. *)
Theorem on_keeps_every_registration (registrations : list (string * nat)) :
  Emitter.listerMap (registered registrations) = map entry_of registrations /\
  Emitter.calls (registered registrations) = [].
Proof.
  unfold registered.
  assert (G : forall this,
            Emitter.listerMap
              (fold_left (fun this r => snd (Emitter.on (fst r) (snd r) this))
                         registrations this) =
            (Emitter.listerMap this ++ map entry_of registrations)%list /\
            Emitter.calls
              (fold_left (fun this r => snd (Emitter.on (fst r) (snd r) this))
                         registrations this) = Emitter.calls this).
  { induction registrations as [|r rs IH]; intros this; cbn [fold_left map].
    - now rewrite app_nil_r.
    - destruct (IH (snd (Emitter.on (fst r) (snd r) this))) as [A B].
      rewrite A, B. unfold Emitter.on, modify, entry_of.
      cbn [snd Emitter.listerMap Emitter.calls]. rewrite <- app_assoc.
      split; reflexivity. }
  apply (G Emitter.new).
Qed.

(** ** More on the selection of definitions *)

Lemma includes_trans (s2 s1 k : string) :
  Str.includes s2 s1 = true -> Str.includes s1 k = true -> Str.includes s2 k = true.
Proof.
  rewrite !includes_occurs. intros [a [b ->]] [c [d ->]].
  exists (a ++ c), (d ++ b). now rewrite !append_assoc.
Qed.

(** A script that contains another script as a substring is given every
    definition the other one is given: adding text to a source never removes a
    definition from the unit. *)
Theorem referenced_grows_with_source (source1 source2 : string) :
  Str.includes source2 source1 = true ->
  forall entry, In entry (referenced source1) -> In entry (referenced source2).
Proof.
  intros H entry. unfold referenced. rewrite !filter_In. intros [I E].
  split; [exact I|]. exact (includes_trans source2 source1 (fst entry) H E).
Qed.

Lemma referenced_grows_with_source_witness :
  In ("mod", Assembler.text_mod) (referenced "yield* mod(a, b)").
Proof.
  apply (referenced_grows_with_source "mod(a, b)" "yield* mod(a, b)").
  - vm_compute. reflexivity.
  - vm_compute. left. reflexivity.
Defined.

(** No key of runtimeFunctions occurs inside another key: a source that consists
    of the name of one primitive is given the definition of that primitive and
    of no other. *)
Theorem referenced_of_a_key :
  forall name text,
    In (name, text) Assembler.runtimeFunctions -> referenced name = [(name, text)].
Proof.
  intros name text H. unfold Assembler.runtimeFunctions in H. simpl in H.
  repeat (destruct H as [H|H]; [injection H as <- <-; vm_compute; reflexivity|]).
  destruct H.
Qed.

Lemma referenced_of_a_key_witness :
  referenced "timer" = [("timer", Assembler.text_timer)].
Proof.
  apply referenced_of_a_key. unfold Assembler.runtimeFunctions. simpl. tauto.
Defined.

(** ** More on mod *)

(** On integers that numbers hold exactly, with a modulus other than zero,
    mod is idempotent, and it does not change when a multiple of the modulus is
    added to its first operand as long as the sum is such an integer too.  The
    results are again integers of that range. *)
Theorem mod_idempotent_periodic (a b k : Z) :
  safe_integer a -> safe_integer b -> b <> 0 ->
  (exists r : Z, Runtime.mod_ (ofZ a) (ofZ b) = ofZ r /\ safe_integer r) /\
  Runtime.mod_ (Runtime.mod_ (ofZ a) (ofZ b)) (ofZ b) = Runtime.mod_ (ofZ a) (ofZ b) /\
  (safe_integer (a + k * b) ->
   Runtime.mod_ (ofZ (a + k * b)) (ofZ b) = Runtime.mod_ (ofZ a) (ofZ b)).
Proof.
  intros Sa Sb H. rewrite !mod_integers by exact H. split; [|split].
  - exists (a mod b). split; [reflexivity|].
    unfold safe_integer in *.
    destruct (Z.lt_total b 0) as [N|[Z0|P]]; [|contradiction|].
    + pose proof (Z.mod_neg_bound a b N). lia.
    + pose proof (Z.mod_pos_bound a b P). lia.
  - now rewrite Z.mod_mod by exact H.
  - intros _. now rewrite Z.mod_add by exact H.
Qed.

Lemma mod_idempotent_periodic_witness :
  Runtime.mod_ (ofZ (-1 + 5 * 4)) (ofZ 4) = Runtime.mod_ (ofZ (-1)) (ofZ 4).
Proof.
  apply (proj2 (proj2 (mod_idempotent_periodic (-1) 4 5
                         ltac:(unfold safe_integer; lia) ltac:(unfold safe_integer; lia)
                         ltac:(discriminate)))).
  unfold safe_integer. lia.
Defined.

(** ** A list that has been emptied *)

(** After listDelete with "all" the list is empty for every primitive: listGet
    returns the empty string for every index, listIndexOf returns 0,
    listContains answers false and listContents is the empty string. *)
Theorem listDelete_all_empties (random : number) (list : Runtime.ListVariable)
  (idx item : Value) :
  let list' := Runtime.listDelete random list (VString "all") in
  Runtime.value list' = [] /\
  Runtime.listGet random (Runtime.value list') idx = VString "" /\
  Runtime.listIndexOf list' item = 0 /\
  Runtime.listContains list' item = false /\
  Runtime.listContents list' = "".
Proof.
  intros list'. unfold list'. rewrite listDelete_all.
  split; [reflexivity|]. split; [|repeat split].
  unfold Runtime.listGet. cbn [Runtime.value length Z.of_nat].
  now rewrite listIndex_length_0.
Qed.
